(** * Merch Mockup AI: the image-request lifecycle controller

    A shallow embedding of [App.tsx] (the component holding the session
    state and the three handlers [handleLogoChange], [handleGenerate] and
    [handleEdit]) and of [utils/fileUtils.ts] ([fileToBase64],
    [getMimeType]).

    The handlers are asynchronous: they call state setters, await the
    browser's [FileReader] and the two operations of the image service, and
    catch what those throw.  They are embedded as terms of a small free
    monad [Prog] whose nodes are the setter calls and the awaited requests;
    [run] executes such a term against a [World] that answers the requests,
    threading the session state and recording every request in a trace. *)

From Stdlib Require Import String Ascii List Bool Arith Lia.
Import ListNotations.
Local Open Scope string_scope.

(** ** JavaScript strings *)

Module Js.

(** [!s] is false exactly for the non-empty string. *)
Definition truthy (s : string) : bool := negb (s =? "").

(** [s.split(sep)] for a one-character separator: the pieces between the
    occurrences of [sep], in order; never an empty array. *)
Fixpoint split (sep : ascii) (s : string) : list string :=
  match s with
  | EmptyString => [EmptyString]
  | String ch rest =>
      if Ascii.eqb ch sep then EmptyString :: split sep rest
      else match split sep rest with
           | [] => [String ch EmptyString]
           | piece :: pieces => String ch piece :: pieces
           end
  end.

(** [s.split(',')[1]]; [None] is JavaScript's [undefined]. *)
Definition split_comma_1 (s : string) : option string :=
  nth_error (split "," s) 1.

(** [s.startsWith(p)]. *)
Definition startsWith (s p : string) : bool := String.prefix p s.

End Js.

(** ** Data model *)

(** Modelled from the spec: the module [./types] that declares [Status] is
    not among the sources; these are the five values of RequestStatus the
    specification lists, and the five string literals [App.tsx] uses. *)
Inductive Status : Type := Idle | Generating | Editing | Success | Error.

(** A browser [File]: the handlers read its declared [type] and hand the
    object to [FileReader]. *)
Record File : Type := mkFile {
  name : string;
  type : string;
  contents : string
}.

(** The [useState] cells of [App]. *)
Record AppState : Type := mkApp {
  logo : option File;
  logoPreview : option string;
  productDescription : string;
  editPrompt : string;
  generatedImage : option string;
  status : Status;
  error : option string
}.

(** The state of the first render. *)
Definition initial : AppState :=
  mkApp None None "a white t-shirt" "" None Idle None.

(** What a [throw] or a rejected promise carries: an [Error] object with its
    message, or some other value (a [ProgressEvent], a string, ...). *)
Inductive thrown : Type :=
| ErrorObj (message : string)
| NotAnError.

(** A settled promise. *)
Inductive outcome (A : Type) : Type :=
| Resolved (value : A)
| Rejected (reason : thrown).
Arguments Resolved {A} value.
Arguments Rejected {A} reason.

(** How a [FileReader.readAsDataURL] ends: [onload] with [reader.result] (a
    string, or something that is not one), or [onerror]. *)
Inductive reader_event : Type :=
| OnLoad (result : option string)
| OnError.

(** The synchronous effects of the handlers. *)
Inductive update : Type :=
| setLogo (v : option File)
| setLogoPreview (v : option string)
| setProductDescription (v : string)
| setEditPrompt (v : string)
| setGeneratedImage (v : option string)
| setStatus (v : Status)
| setError (v : option string)
| console_error (e : thrown).

(** The asynchronous requests, indexed by the type of their answer.  The
    first argument of the two service operations is the result of
    [split(',')[1]], hence possibly [undefined]. *)
Inductive request : Type -> Type :=
| readAsDataURL (file : File) : request reader_event
| generateImage (base64 : option string) (mimeType description : string)
    : request (outcome string)
| editImage (base64 : option string) (mimeType prompt : string)
    : request (outcome string).

(** ** Asynchronous code *)

Inductive Prog (R : Type) : Type :=
| Ret (r : R)
| Throw (e : thrown)
| Do (u : update) (k : Prog R)
| Await {X : Type} (q : request X) (k : X -> Prog R).
Arguments Ret {R} r.
Arguments Throw {R} e.
Arguments Do {R} u k.
Arguments Await {R X} q k.

Fixpoint bind {A B : Type} (m : Prog A) (f : A -> Prog B) : Prog B :=
  match m with
  | Ret a => f a
  | Throw e => Throw e
  | Do u k => Do u (bind k f)
  | Await q k => Await q (fun x => bind (k x) f)
  end.

(** [try { m } catch (e) { h e }]. *)
Fixpoint try_catch {A : Type} (m : Prog A) (h : thrown -> Prog A) : Prog A :=
  match m with
  | Ret a => Ret a
  | Throw e => h e
  | Do u k => Do u (try_catch k h)
  | Await q k => Await q (fun x => try_catch (k x) h)
  end.

Definition call (u : update) : Prog unit := Do u (Ret tt).

(** [await p] for a promise the environment settles. *)
Definition await (q : request (outcome string)) : Prog string :=
  Await q (fun o => match o with
                    | Resolved v => Ret v
                    | Rejected e => Throw e
                    end).

Declare Scope prog_scope.
Delimit Scope prog_scope with prog.
Notation "x <- m ;; k" := (bind m (fun x => k))
  (at level 61, m at next level, right associativity) : prog_scope.
Notation "m ;; k" := (bind m (fun _ => k))
  (at level 61, right associativity) : prog_scope.
Local Open Scope prog_scope.

(** ** utils/fileUtils.ts *)

Definition fileToBase64 (file : File) : Prog (option string) :=
  Await (readAsDataURL file) (fun ev =>
    match ev with
    | OnLoad (Some result) => Ret (Js.split_comma_1 result)
    | OnLoad None => Throw (ErrorObj "Failed to read file as base64 string.")
    | OnError => Throw NotAnError
    end).

Definition getMimeType (fileType : string) : option string :=
  if fileType =? "image/png" then Some "image/png"
  else if fileType =? "image/jpeg" then Some "image/jpeg"
  else if fileType =? "image/webp" then Some "image/webp"
  else None.

(** The allow-list of the specification. *)
Definition allow_list : list string := ["image/png"; "image/jpeg"; "image/webp"].

(** ** App.tsx: the handlers

    A handler is a closure over the values of the render it was created in;
    [c] is that render's state.  What its setters write goes to the current
    state, which [run] threads. *)

(** [e instanceof Error ? e.message : 'An unknown error occurred.'] *)
Definition message_of (e : thrown) : string :=
  match e with
  | ErrorObj message => message
  | NotAnError => "An unknown error occurred."
  end.

Definition handleLogoChange (files0 : option File) : Prog unit :=
  match files0 with
  | Some file =>
      call (setLogo (Some file)) ;;
      preview <- fileToBase64 file ;;
      call (setLogoPreview preview) ;;
      call (setGeneratedImage None) ;;
      call (setError None)
  | None => Ret tt
  end.

Definition handleGenerate (c : AppState) : Prog unit :=
  match logo c, Js.truthy (productDescription c) with
  | Some logo, true =>
      call (setStatus Generating) ;;
      call (setError None) ;;
      call (setGeneratedImage None) ;;
      try_catch
        (logoBase64 <- fileToBase64 logo ;;
         match getMimeType (type logo) with
         | None => Throw (ErrorObj "Unsupported file type.")
         | Some mimeType =>
             result <- await (generateImage logoBase64 mimeType (productDescription c)) ;;
             call (setGeneratedImage (Some result)) ;;
             call (setStatus Success)
         end)
        (fun e =>
           call (console_error e) ;;
           call (setError (Some (message_of e))) ;;
           call (setStatus Error))
  | _, _ =>
      call (setError (Some "Please upload a logo and provide a product description."))
  end.

(** [!generatedImage] holds for [null] and for the empty string. *)
Definition present (v : option string) : option string :=
  match v with
  | Some s => if Js.truthy s then Some s else None
  | None => None
  end.

Definition handleEdit (c : AppState) : Prog unit :=
  match present (generatedImage c), Js.truthy (editPrompt c) with
  | Some generatedImage, true =>
      call (setStatus Editing) ;;
      call (setError None) ;;
      try_catch
        (let mimeType :=
           if Js.startsWith generatedImage "data:image/jpeg"
           then "image/jpeg" else "image/png" in
         let base64Data := Js.split_comma_1 generatedImage in
         result <- await (editImage base64Data mimeType (editPrompt c)) ;;
         call (setGeneratedImage (Some result)) ;;
         call (setEditPrompt "") ;;
         call (setStatus Success))
        (fun e =>
           call (console_error e) ;;
           call (setError (Some (message_of e))) ;;
           call (setStatus Error))
  | _, _ =>
      call (setError (Some "Please generate an image and provide an edit prompt."))
  end.

(** [const isLoading = status === 'generating' || status === 'editing'] *)
Definition isLoading (c : AppState) : bool :=
  match status c with
  | Generating | Editing => true
  | _ => false
  end.

(** The two buttons of the page.  A disabled button fires no [onClick].
    "Generate Mockup" is always rendered, with
    [disabled={!logo || !productDescription || isLoading}]; "Apply" is
    rendered only in the branch of the output panel taken when [isLoading]
    is false and [generatedImage] is truthy, with
    [disabled={!editPrompt || isLoading}]. *)
Definition generateButton_disabled (c : AppState) : bool :=
  negb (match logo c with Some _ => true | None => false end)
  || negb (Js.truthy (productDescription c))
  || isLoading c.

Definition applyButton_rendered (c : AppState) : bool :=
  negb (isLoading c)
  && match present (generatedImage c) with Some _ => true | None => false end.

Definition applyButton_disabled (c : AppState) : bool :=
  negb (Js.truthy (editPrompt c)) || isLoading c.

Definition clickGenerate (c : AppState) : Prog unit :=
  if generateButton_disabled c then Ret tt else handleGenerate c.

Definition clickApply (c : AppState) : Prog unit :=
  if applyButton_rendered c && negb (applyButton_disabled c)
  then handleEdit c else Ret tt.

(** ** Execution *)

(** The environment: the browser's file reader and the two operations of
    [services/geminiService], which is outside the sources and opaque. *)
Record World : Type := mkWorld {
  fileReader : File -> reader_event;
  geminiGenerate : option string -> string -> string -> outcome string;
  geminiEdit : option string -> string -> string -> outcome string
}.

Definition answer {X : Type} (w : World) (q : request X) : X :=
  match q in request T return T with
  | readAsDataURL file => fileReader w file
  | generateImage b64 mime description => geminiGenerate w b64 mime description
  | editImage b64 mime prompt => geminiEdit w b64 mime prompt
  end.

Definition apply_update (u : update) (st : AppState) : AppState :=
  match u with
  | setLogo v =>
      mkApp v (logoPreview st) (productDescription st) (editPrompt st)
            (generatedImage st) (status st) (error st)
  | setLogoPreview v =>
      mkApp (logo st) v (productDescription st) (editPrompt st)
            (generatedImage st) (status st) (error st)
  | setProductDescription v =>
      mkApp (logo st) (logoPreview st) v (editPrompt st)
            (generatedImage st) (status st) (error st)
  | setEditPrompt v =>
      mkApp (logo st) (logoPreview st) (productDescription st) v
            (generatedImage st) (status st) (error st)
  | setGeneratedImage v =>
      mkApp (logo st) (logoPreview st) (productDescription st) (editPrompt st)
            v (status st) (error st)
  | setStatus v =>
      mkApp (logo st) (logoPreview st) (productDescription st) (editPrompt st)
            (generatedImage st) v (error st)
  | setError v =>
      mkApp (logo st) (logoPreview st) (productDescription st) (editPrompt st)
            (generatedImage st) (status st) v
  | console_error _ => st
  end.

(** What an observer of the environment sees of a run. *)
Inductive event : Type :=
| FileRead (file : File)
| GenerateCall (base64 : option string) (mimeType description : string)
| EditCall (base64 : option string) (mimeType prompt : string)
| ConsoleError (e : thrown).

Definition event_of {X : Type} (q : request X) : event :=
  match q with
  | readAsDataURL file => FileRead file
  | generateImage b64 mime description => GenerateCall b64 mime description
  | editImage b64 mime prompt => EditCall b64 mime prompt
  end.

Definition log_of (u : update) : list event :=
  match u with
  | console_error e => [ConsoleError e]
  | _ => []
  end.

Record Run (R : Type) : Type := mkRun {
  final : AppState;
  trace : list event;
  completion : outcome R
}.
Arguments mkRun {R} final trace completion.
Arguments final {R} r.
Arguments trace {R} r.
Arguments completion {R} r.

Fixpoint run {R : Type} (w : World) (p : Prog R) (st : AppState) : Run R :=
  match p with
  | Ret r => mkRun st [] (Resolved r)
  | Throw e => mkRun st [] (Rejected e)
  | Do u k =>
      let r := run w k (apply_update u st) in
      mkRun (final r) (log_of u ++ trace r) (completion r)
  | Await q k =>
      let r := run w (k (answer w q)) st in
      mkRun (final r) (event_of q :: trace r) (completion r)
  end.

(** The invocations of the external image service in a trace. *)
Definition is_capability_call (ev : event) : bool :=
  match ev with
  | GenerateCall _ _ _ | EditCall _ _ _ => true
  | _ => false
  end.

Definition capability_calls (tr : list event) : list event :=
  filter is_capability_call tr.

(** The synchronous prefix of a handler: the setters it calls before it
    first suspends, and what is left of it then. *)
Fixpoint suspend {R : Type} (p : Prog R) (st : AppState) : AppState * Prog R :=
  match p with
  | Do u k => suspend k (apply_update u st)
  | _ => (st, p)
  end.

(** ** The outcomes of a request, as states *)

(** The state a generate request starts from, after its three setters. *)
Definition generating (st : AppState) : AppState :=
  apply_update (setGeneratedImage None)
    (apply_update (setError None) (apply_update (setStatus Generating) st)).

(** The state an edit request starts from, after its two setters. *)
Definition editing (st : AppState) : AppState :=
  apply_update (setError None) (apply_update (setStatus Editing) st).

(** What the [catch] blocks of both handlers leave behind. *)
Definition caught (e : thrown) (st : AppState) : AppState :=
  apply_update (setStatus Error) (apply_update (setError (Some (message_of e))) st).

Definition generated (img : string) (st : AppState) : AppState :=
  apply_update (setStatus Success) (apply_update (setGeneratedImage (Some img)) st).

Definition edited (img : string) (st : AppState) : AppState :=
  apply_update (setStatus Success)
    (apply_update (setEditPrompt "")
       (apply_update (setGeneratedImage (Some img)) st)).

(** The media type [handleEdit] sends along with the current image. *)
Definition edit_mimeType (img : string) : string :=
  if Js.startsWith img "data:image/jpeg" then "image/jpeg" else "image/png".

(** The two kinds of request of the lifecycle, and their handlers. *)
Inductive RequestKind : Type := GenerateRequest | EditRequest.

Definition handler (k : RequestKind) : AppState -> Prog unit :=
  match k with
  | GenerateRequest => handleGenerate
  | EditRequest => handleEdit
  end.

(** The guard of [handleGenerate], [!(!logo || !productDescription)]. *)
Definition generate_accepted (c : AppState) : bool :=
  match logo c with
  | Some _ => Js.truthy (productDescription c)
  | None => false
  end.

(** ** The page as a transition system

    Handlers interleave: while one is suspended at an [await] the page stays
    live, the user can act again and other handlers can run.  A session is
    the current state together with the suspended handlers; it moves when
    the user acts and when the environment answers a pending request, with
    any answer. *)

Inductive gesture : Type :=
| PressGenerate
| PressApply
| ChooseFile (files0 : option File)
| TypeDescription (v : string)
| TypeEditPrompt (v : string).

(** The description's [textarea] has [disabled={isLoading}]; the edit
    prompt's [input] is in the same branch of the output panel as the
    "Apply" button, with [disabled={isLoading}]; the file input is always
    live. *)
Definition on_gesture (g : gesture) (c : AppState) : Prog unit :=
  match g with
  | PressGenerate => clickGenerate c
  | PressApply => clickApply c
  | ChooseFile files0 => handleLogoChange files0
  | TypeDescription v =>
      if isLoading c then Ret tt else call (setProductDescription v)
  | TypeEditPrompt v =>
      if applyButton_rendered c then call (setEditPrompt v) else Ret tt
  end.

Record Session : Type := mkSession {
  ui : AppState;
  pending : list (Prog unit)
}.

Definition awaiting {R : Type} (p : Prog R) : bool :=
  match p with
  | Await _ _ => true
  | _ => false
  end.

(** Run [p] until it suspends or ends. *)
Definition resume (p : Prog unit) (s : Session) : Session :=
  let (st, p') := suspend p (ui s) in
  mkSession st (if awaiting p' then pending s ++ [p'] else pending s).

Inductive step : Session -> Session -> Prop :=
| step_gesture (g : gesture) (s : Session) :
    step s (resume (on_gesture g (ui s)) s)
| step_answer {X : Type} (q : request X) (k : X -> Prog unit) (x : X)
    (s : Session) (before after : list (Prog unit)) :
    pending s = (before ++ Await q k :: after)%list ->
    step s (resume (k x) (mkSession (ui s) (before ++ after))).

Inductive reachable : Session -> Prop :=
| reachable_initial : reachable (mkSession initial [])
| reachable_step (s s' : Session) : reachable s -> step s s' -> reachable s'.

Definition to_service {X : Type} (q : request X) : bool :=
  match q with
  | readAsDataURL _ => false
  | generateImage _ _ _ | editImage _ _ _ => true
  end.

(** The suspended handlers that wait for the image service. *)
Definition calls_service {R : Type} (p : Prog R) : bool :=
  match p with
  | Await q _ => to_service q
  | _ => false
  end.

Definition outstanding (s : Session) : nat :=
  length (filter calls_service (pending s)).

Definition writes_status (u : update) : bool :=
  match u with
  | setStatus _ => true
  | _ => false
  end.

(** Code that neither writes the status nor calls the image service. *)
Fixpoint quiet (p : Prog unit) : Prop :=
  match p with
  | Ret _ | Throw _ => True
  | Do u k => writes_status u = false /\ quiet k
  | Await q k => to_service q = false /\ forall x, quiet (k x)
  end.

(** A request under way: code that leaves the status alone until, in a last
    synchronous stretch, it writes a status that is not a loading one. *)
Fixpoint lifecycle (p : Prog unit) : Prop :=
  match p with
  | Ret _ | Throw _ => False
  | Do u k =>
      if writes_status u
      then forall st,
             awaiting (snd (suspend p st)) = false /\
             isLoading (fst (suspend p st)) = false
      else lifecycle k
  | Await q k => forall x, lifecycle (k x)
  end.

(** Suspended handlers of which exactly one is a request under way. *)
Inductive one_lifecycle : list (Prog unit) -> Prop :=
| one_here (p : Prog unit) (l : list (Prog unit)) :
    lifecycle p -> Forall quiet l -> one_lifecycle (p :: l)
| one_later (p : Prog unit) (l : list (Prog unit)) :
    quiet p -> one_lifecycle l -> one_lifecycle (p :: l).

(** The status is a loading one exactly while a request is under way. *)
Definition single_flight (s : Session) : Prop :=
  if isLoading (ui s) then one_lifecycle (pending s)
  else Forall quiet (pending s).

(** ** The rest of the page *)

(** [s.includes(ch)] for a one-character [ch]. *)
Fixpoint includes (ch : ascii) (s : string) : bool :=
  match s with
  | EmptyString => false
  | String c rest => Ascii.eqb c ch || includes ch rest
  end.

(** The button that starts a request of each kind. *)
Definition press (k : RequestKind) : AppState -> Prog unit :=
  match k with
  | GenerateRequest => clickGenerate
  | EditRequest => clickApply
  end.

(** The file input's [accept="image/png, image/jpeg, image/webp"]: a
    comma-separated list of tokens, each stripped of the white space around
    it. *)
Definition accept : string := "image/png, image/jpeg, image/webp".

Fixpoint trimStart (s : string) : string :=
  match s with
  | String " " rest => trimStart rest
  | _ => s
  end.

Fixpoint trimEnd (s : string) : string :=
  match s with
  | EmptyString => EmptyString
  | String c rest =>
      match c, trimEnd rest with
      | " "%char, EmptyString => EmptyString
      | _, rest' => String c rest'
      end
  end.

Definition accepted_types : list string :=
  map (fun token => trimEnd (trimStart token)) (Js.split "," accept).

(** The part of the document [handleDownload] touches: the children of
    [document.body], and the elements that were clicked.  An element is
    known by its identity; [createElement] makes one that is nowhere in the
    document yet. *)
Module Dom.

Record Element : Type := mkElement {
  identity : nat;
  tagName : string;
  href : string;
  download : string
}.

Record Document : Type := mkDocument {
  body : list Element;
  clicked : list Element
}.

Definition createElement (fresh : nat) (tag : string) : Element :=
  mkElement fresh tag "" "".

Definition set_href (v : string) (e : Element) : Element :=
  mkElement (identity e) (tagName e) v (download e).

Definition set_download (v : string) (e : Element) : Element :=
  mkElement (identity e) (tagName e) (href e) v.

Definition appendChild (e : Element) (d : Document) : Document :=
  mkDocument (body d ++ [e]) (clicked d).

Definition click (e : Element) (d : Document) : Document :=
  mkDocument (body d) (clicked d ++ [e]).

Definition removeChild (e : Element) (d : Document) : Document :=
  mkDocument
    (filter (fun child => negb (Nat.eqb (identity child) (identity e))) (body d))
    (clicked d).

End Dom.

Definition handleDownload (c : AppState) (fresh : nat) (d : Dom.Document)
    : Dom.Document :=
  match present (generatedImage c) with
  | None => d
  | Some generatedImage =>
      let link := Dom.createElement fresh "a" in
      let link := Dom.set_href generatedImage link in
      let link := Dom.set_download "merch-mockup.png" link in
      let d := Dom.appendChild link d in
      let d := Dom.click link d in
      Dom.removeChild link d
  end.

(** The ways a run of a handler can go, for the handler of a render [c]
    running on the current state [st]: stopped by validation, ended in the
    [catch] block before or after the call of the service, or completed. *)
Inductive handled (w : World) (c st : AppState) : RequestKind -> Run unit -> Prop :=
| generate_invalid :
    generate_accepted c = false ->
    handled w c st GenerateRequest
      (mkRun
         (apply_update
            (setError
               (Some "Please upload a logo and provide a product description."))
            st)
         [] (Resolved tt))
| generate_unread (file : File) (e : thrown) :
    logo c = Some file -> productDescription c <> "" ->
    completion (run w (fileToBase64 file) st) = Rejected e ->
    handled w c st GenerateRequest
      (mkRun (caught e (generating st)) [FileRead file; ConsoleError e]
         (Resolved tt))
| generate_unsupported (file : File) (payload : option string) :
    logo c = Some file -> productDescription c <> "" ->
    completion (run w (fileToBase64 file) st) = Resolved payload ->
    getMimeType (type file) = None ->
    handled w c st GenerateRequest
      (mkRun (caught (ErrorObj "Unsupported file type.") (generating st))
         [FileRead file; ConsoleError (ErrorObj "Unsupported file type.")]
         (Resolved tt))
| generate_failed (file : File) (payload : option string) (mimeType : string)
    (e : thrown) :
    logo c = Some file -> productDescription c <> "" ->
    completion (run w (fileToBase64 file) st) = Resolved payload ->
    getMimeType (type file) = Some mimeType ->
    geminiGenerate w payload mimeType (productDescription c) = Rejected e ->
    handled w c st GenerateRequest
      (mkRun (caught e (generating st))
         [FileRead file;
          GenerateCall payload mimeType (productDescription c);
          ConsoleError e]
         (Resolved tt))
| generate_succeeded (file : File) (payload : option string) (mimeType : string)
    (img : string) :
    logo c = Some file -> productDescription c <> "" ->
    completion (run w (fileToBase64 file) st) = Resolved payload ->
    getMimeType (type file) = Some mimeType ->
    geminiGenerate w payload mimeType (productDescription c) = Resolved img ->
    handled w c st GenerateRequest
      (mkRun (generated img (generating st))
         [FileRead file; GenerateCall payload mimeType (productDescription c)]
         (Resolved tt))
| edit_invalid :
    present (generatedImage c) = None \/ editPrompt c = "" ->
    handled w c st EditRequest
      (mkRun
         (apply_update
            (setError (Some "Please generate an image and provide an edit prompt."))
            st)
         [] (Resolved tt))
| edit_failed (img : string) (e : thrown) :
    present (generatedImage c) = Some img -> editPrompt c <> "" ->
    geminiEdit w (Js.split_comma_1 img) (edit_mimeType img) (editPrompt c)
      = Rejected e ->
    handled w c st EditRequest
      (mkRun (caught e (editing st))
         [EditCall (Js.split_comma_1 img) (edit_mimeType img) (editPrompt c);
          ConsoleError e]
         (Resolved tt))
| edit_succeeded (img result : string) :
    present (generatedImage c) = Some img -> editPrompt c <> "" ->
    geminiEdit w (Js.split_comma_1 img) (edit_mimeType img) (editPrompt c)
      = Resolved result ->
    handled w c st EditRequest
      (mkRun (edited result (editing st))
         [EditCall (Js.split_comma_1 img) (edit_mimeType img) (editPrompt c)]
         (Resolved tt)).

(** Code that, each time it is resumed, clears the error message, leaves
    it alone, or ends the stretch with the status [error]. *)
Fixpoint discreet (p : Prog unit) : Prop :=
  match p with
  | Ret _ | Throw _ => True
  | Do _ k => discreet k
  | Await q k =>
      forall x,
        (forall st,
            error (fst (suspend (k x) st)) = None \/
            error (fst (suspend (k x) st)) = error st \/
            status (fst (suspend (k x) st)) = Error) /\
        discreet (k x)
  end.

(** An error message is on display only with the status [error], and never
    while a request is under way. *)
Definition error_shown_properly (st : AppState) : Prop :=
  if isLoading st then error st = None
  else error st <> None -> status st = Error.


(** [piece] is what stands in [s] between its first comma and the next
    one, or the end of [s]; [header] is what stands before the first
    comma. *)
Definition cut_at_commas (s header piece : string) : Prop :=
  includes "," header = false /\
  includes "," piece = false /\
  (s = header ++ "," ++ piece \/
   exists rest, s = header ++ "," ++ piece ++ "," ++ rest).

(** ** Scenarios *)

Module Scenario.

Definition png_logo : File := mkFile "logo.png" "image/png" "PNG-LOGO".
Definition gif_logo : File := mkFile "logo.gif" "image/gif" "GIF-LOGO".
Definition new_logo : File := mkFile "logo2.png" "image/png" "PNG-LOGO-2".

Definition mockup : string := "data:image/png;base64,TU9DS1VQ".
Definition jpeg_mockup : string := "data:image/jpeg;base64,SlBFRw==".
Definition retouched : string := "data:image/png;base64,UkVUUk8=".

(** A browser that reads every file. *)
Definition reads (file : File) : reader_event :=
  OnLoad (Some ("data:" ++ type file ++ ";base64,TE9HTw==")).

(** The service answers every request. *)
Definition online : World :=
  mkWorld reads (fun _ _ _ => Resolved mockup) (fun _ _ _ => Resolved retouched).

(** The service fails every request with an [Error]. *)
Definition offline : World :=
  mkWorld reads
    (fun _ _ _ => Rejected (ErrorObj "Failed to fetch"))
    (fun _ _ _ => Rejected (ErrorObj "Failed to fetch")).

(** The service is up, the file reader reports an error. *)
Definition unreadable : World :=
  mkWorld (fun _ => OnError)
    (fun _ _ _ => Resolved mockup) (fun _ _ _ => Resolved retouched).

(** A PNG logo selected, nothing generated yet. *)
Definition ready : AppState :=
  mkApp (Some png_logo) (Some "TE9HTw==") "a white t-shirt" "" None Idle None.

(** The same just after "Generate Mockup" was pressed, the request pending. *)
Definition in_flight : AppState :=
  mkApp (Some png_logo) (Some "TE9HTw==") "a white t-shirt" "" None Generating None.

(** A mockup on display, an edit instruction typed, and "Apply" just
    pressed, the request pending. *)
Definition edit_in_flight : AppState :=
  mkApp (Some png_logo) (Some "TE9HTw==") "a white t-shirt" "add a retro filter"
        (Some mockup) Editing None.

(** A GIF file in the logo cell. *)
Definition gif_selected : AppState :=
  mkApp (Some gif_logo) (Some "TE9HTw==") "a white t-shirt" "" None Idle None.

(** No logo selected. *)
Definition no_logo : AppState := initial.

(** A mockup on display and an edit instruction typed. *)
Definition with_mockup : AppState :=
  mkApp (Some png_logo) (Some "TE9HTw==") "a white t-shirt" "add a retro filter"
        (Some mockup) Success None.

(** A JPEG mockup on display and an edit instruction typed. *)
Definition with_jpeg_mockup : AppState :=
  mkApp (Some png_logo) (Some "TE9HTw==") "a white t-shirt" "add a retro filter"
        (Some jpeg_mockup) Success None.

(** A mockup on display after an edit that failed. *)
Definition after_failed_edit : AppState :=
  mkApp (Some png_logo) (Some "TE9HTw==") "a white t-shirt" "add a retro filter"
        (Some mockup) Error (Some "Failed to fetch").

End Scenario.

(** The environment [w] answers the oldest pending request. *)
Definition answer_first (w : World) (s : Session) : Session :=
  match pending s with
  | Await q k :: rest => resume (k (answer w q)) (mkSession (ui s) rest)
  | _ => s
  end.

(** A visit of the page: a logo is chosen and read, "Generate Mockup" is
    pressed and the logo read again, so that the call of the service is
    pending. *)
Module Visit.

Definition opened : Session := mkSession initial [].

Definition chosen : Session :=
  answer_first Scenario.online
    (resume (on_gesture (ChooseFile (Some Scenario.png_logo)) (ui opened)) opened).

Definition pressed : Session :=
  resume (on_gesture PressGenerate (ui chosen)) chosen.

Definition calling : Session := answer_first Scenario.online pressed.

End Visit.

(** * Properties *)

(** ** Strings and the monad *)

Lemma truthy_true (s : string) : Js.truthy s = true <-> s <> "".
Proof.
  unfold Js.truthy. rewrite negb_true_iff. apply String.eqb_neq.
Qed.

Lemma truthy_false (s : string) : Js.truthy s = false <-> s = "".
Proof.
  unfold Js.truthy. rewrite negb_false_iff. apply String.eqb_eq.
Qed.

Lemma present_Some (v : option string) (s : string) :
  present v = Some s <-> v = Some s /\ s <> "".
Proof.
  unfold present. destruct v as [s'|].
  - destruct (Js.truthy s') eqn:T.
    + apply truthy_true in T. split.
      * intros [= ->]. auto.
      * intros [[= ->] _]. reflexivity.
    + apply truthy_false in T. subst s'. split; [discriminate|].
      intros [[= <-] N]. now elim N.
  - split; [discriminate | intros [[=] _]].
Qed.

Lemma present_None (v : option string) :
  present v = None <-> v = None \/ v = Some "".
Proof.
  unfold present. destruct v as [s'|].
  - destruct (Js.truthy s') eqn:T.
    + apply truthy_true in T. split; [discriminate|].
      intros [[=] | [= ->]]. now elim T.
    + apply truthy_false in T. subst s'. tauto.
  - tauto.
Qed.

(** Sequencing runs the first part, then the second from where the first
    stopped; a rejection of the first part skips the second. *)
Lemma run_bind {A B : Type} (w : World) (m : Prog A) (f : A -> Prog B) :
  forall st,
    run w (bind m f) st =
    let r1 := run w m st in
    match completion r1 with
    | Resolved a =>
        let r2 := run w (f a) (final r1) in
        mkRun (final r2) (trace r1 ++ trace r2) (completion r2)
    | Rejected e => mkRun (final r1) (trace r1) (Rejected e)
    end.
Proof.
  induction m as [a|e|u k IH|X q k IH]; intros st; cbn [bind run].
  - cbn. now destruct (run w (f a) st).
  - reflexivity.
  - rewrite IH. cbn.
    destruct (completion (run w k (apply_update u st))); cbn;
      now rewrite ?app_assoc.
  - rewrite IH. cbn.
    now destruct (completion (run w (k (answer w q)) st)).
Qed.

(** A [try] block that completes is not affected by its [catch]; one that
    throws continues with the handler, from the state reached. *)
Lemma run_try_catch {A : Type} (w : World) (m : Prog A) (h : thrown -> Prog A) :
  forall st,
    run w (try_catch m h) st =
    let r1 := run w m st in
    match completion r1 with
    | Resolved a => r1
    | Rejected e =>
        let r2 := run w (h e) (final r1) in
        mkRun (final r2) (trace r1 ++ trace r2) (completion r2)
    end.
Proof.
  induction m as [a|e|u k IH|X q k IH]; intros st; cbn [try_catch run].
  - reflexivity.
  - cbn. now destruct (run w (h e) st).
  - rewrite IH. cbn.
    destruct (run w k (apply_update u st)) as [s t [a|e]]; cbn;
      now rewrite ?app_assoc.
  - rewrite IH. cbn.
    now destruct (run w (k (answer w q)) st) as [s t [a|e]].
Qed.

(** [fileToBase64] issues one read and settles by the reader's event. *)
Lemma fileToBase64_run (w : World) (file : File) (st : AppState) :
  run w (fileToBase64 file) st =
  mkRun st [FileRead file]
    match fileReader w file with
    | OnLoad (Some result) => Resolved (Js.split_comma_1 result)
    | OnLoad None => Rejected (ErrorObj "Failed to read file as base64 string.")
    | OnError => Rejected NotAnError
    end.
Proof.
  cbn. now destruct (fileReader w file) as [[result|]|].
Qed.

(** ** The handlers, case by case *)

Section Handlers.

Variable w : World.

Lemma handleGenerate_invalid (c : AppState) :
  logo c = None \/ productDescription c = "" ->
  handleGenerate c =
  call (setError (Some "Please upload a logo and provide a product description.")).
Proof.
  unfold handleGenerate. intros [H|H]; rewrite H.
  - reflexivity.
  - now destruct (logo c).
Qed.

Lemma handleEdit_invalid (c : AppState) :
  present (generatedImage c) = None \/ editPrompt c = "" ->
  handleEdit c =
  call (setError (Some "Please generate an image and provide an edit prompt.")).
Proof.
  unfold handleEdit. intros [H|H]; rewrite H.
  - reflexivity.
  - now destruct (present (generatedImage c)).
Qed.

(** A generate request that passes validation: one file read, then the
    classification of the declared type, then at most one call of the
    service; every failure on the way ends in the [catch] block. *)
Lemma handleGenerate_run (c : AppState) (file : File) :
  logo c = Some file ->
  productDescription c <> "" ->
  run w (handleGenerate c) c =
  match completion (run w (fileToBase64 file) c) with
  | Rejected e =>
      mkRun (caught e (generating c)) [FileRead file; ConsoleError e] (Resolved tt)
  | Resolved payload =>
      match getMimeType (type file) with
      | None =>
          let e := ErrorObj "Unsupported file type." in
          mkRun (caught e (generating c)) [FileRead file; ConsoleError e] (Resolved tt)
      | Some mimeType =>
          let request := GenerateCall payload mimeType (productDescription c) in
          match geminiGenerate w payload mimeType (productDescription c) with
          | Resolved img =>
              mkRun (generated img (generating c)) [FileRead file; request] (Resolved tt)
          | Rejected e =>
              mkRun (caught e (generating c))
                [FileRead file; request; ConsoleError e] (Resolved tt)
          end
      end
  end.
Proof.
  intros L D. apply truthy_true in D.
  unfold handleGenerate. rewrite L, D.
  rewrite fileToBase64_run. cbn.
  destruct (fileReader w file) as [[result|]|]; cbn; try reflexivity.
  destruct (getMimeType (type file)) as [mimeType|]; cbn; try reflexivity.
  now destruct (geminiGenerate w _ mimeType (productDescription c)).
Qed.

(** An edit request that passes validation: exactly one call of the
    service, on the part of the current image after its first comma. *)
Lemma handleEdit_run (c : AppState) (img : string) :
  present (generatedImage c) = Some img ->
  editPrompt c <> "" ->
  run w (handleEdit c) c =
  let request := EditCall (Js.split_comma_1 img) (edit_mimeType img) (editPrompt c) in
  match geminiEdit w (Js.split_comma_1 img) (edit_mimeType img) (editPrompt c) with
  | Resolved result => mkRun (edited result (editing c)) [request] (Resolved tt)
  | Rejected e =>
      mkRun (caught e (editing c)) [request; ConsoleError e] (Resolved tt)
  end.
Proof.
  intros G P. apply truthy_true in P.
  unfold handleEdit. rewrite G, P. cbn. fold (edit_mimeType img).
  now destruct (geminiEdit w _ (edit_mimeType img) (editPrompt c)).
Qed.

(** Selecting a file whose read succeeds. *)
Lemma handleLogoChange_loaded (st : AppState) (file : File) (preview : option string) :
  completion (run w (fileToBase64 file) st) = Resolved preview ->
  run w (handleLogoChange (Some file)) st =
  mkRun (mkApp (Some file) preview (productDescription st) (editPrompt st)
               None (status st) None)
        [FileRead file] (Resolved tt).
Proof.
  rewrite fileToBase64_run. cbn.
  destruct (fileReader w file) as [[result|]|]; cbn; try discriminate.
  now intros [= <-].
Qed.

(** Selecting a file whose read fails: the handler's promise rejects after
    [setLogo], before the three other setters. *)
Lemma handleLogoChange_unreadable (st : AppState) (file : File) (e : thrown) :
  completion (run w (fileToBase64 file) st) = Rejected e ->
  run w (handleLogoChange (Some file)) st =
  mkRun (apply_update (setLogo (Some file)) st) [FileRead file] (Rejected e).
Proof.
  rewrite fileToBase64_run. cbn.
  destruct (fileReader w file) as [[result|]|]; cbn; try discriminate;
    now intros [= <-].
Qed.

(** A handler with a [try] block always fulfils its promise. *)
Lemma handlers_fulfil (c : AppState) :
  completion (run w (handleGenerate c) c) = Resolved tt /\
  completion (run w (handleEdit c) c) = Resolved tt.
Proof.
  split.
  - destruct (logo c) as [file|] eqn:L.
    + destruct (Js.truthy (productDescription c)) eqn:D.
      * apply truthy_true in D. rewrite (handleGenerate_run c file L D).
        destruct (completion (run w (fileToBase64 file) c)); [|reflexivity].
        destruct (getMimeType (type file)); [|reflexivity].
        now destruct (geminiGenerate w _ _ _).
      * apply truthy_false in D. now rewrite handleGenerate_invalid by auto.
    + now rewrite handleGenerate_invalid by auto.
  - destruct (present (generatedImage c)) as [img|] eqn:G.
    + destruct (Js.truthy (editPrompt c)) eqn:P.
      * apply truthy_true in P. rewrite (handleEdit_run c img G P). cbn.
        now destruct (geminiEdit w _ _ _).
      * apply truthy_false in P. now rewrite handleEdit_invalid by auto.
    + now rewrite handleEdit_invalid by auto.
Qed.

End Handlers.

(** ** Media types *)

Lemma startsWith_spec (s p : string) :
  Js.startsWith s p = true <-> exists rest, s = p ++ rest.
Proof.
  unfold Js.startsWith. revert s.
  induction p as [|a p IH]; intros s; cbn.
  - split; [intros _; now exists s | now destruct s].
  - destruct s as [|b s]; cbn.
    + split; [discriminate | intros [rest [=]]].
    + destruct (ascii_dec a b) as [->|N].
      * rewrite IH. split; intros [rest E]; exists rest; congruence.
      * split; [discriminate | intros [rest [= E _]]; now elim N].
Qed.

Lemma getMimeType_Some (t r : string) :
  getMimeType t = Some r <-> In t allow_list /\ r = t.
Proof.
  unfold getMimeType, allow_list. cbn [In].
  destruct (String.eqb_spec t "image/png") as [->|N1].
  { split; [intros [= <-]; auto | intros [_ ->]; reflexivity]. }
  destruct (String.eqb_spec t "image/jpeg") as [->|N2].
  { split; [intros [= <-]; auto | intros [_ ->]; reflexivity]. }
  destruct (String.eqb_spec t "image/webp") as [->|N3].
  { split; [intros [= <-]; auto | intros [_ ->]; reflexivity]. }
  split; [discriminate|].
  intros [[E|[E|[E|[]]]] _]; congruence.
Qed.

Lemma getMimeType_None (t : string) :
  getMimeType t = None <-> ~ In t allow_list.
Proof.
  destruct (getMimeType t) as [r|] eqn:E.
  - apply getMimeType_Some in E as [I _]. split; [discriminate | tauto].
  - split; [|reflexivity]. intros _ I.
    assert (getMimeType t = Some t) as E' by (apply getMimeType_Some; auto).
    congruence.
Qed.

(** C5. [getMimeType] answers with a canonical tag exactly for the three
    declared types of the allow-list, and then with the declared type
    itself; for every other string it answers [null], which is how it
    signals an unsupported media type.  It is a function of its argument
    alone: it reads and writes no state. *)
Theorem getMimeType_allow_list (declared : string) :
  (forall tag, getMimeType declared = Some tag <->
               In declared allow_list /\ tag = declared) /\
  (getMimeType declared = None <-> ~ In declared allow_list) /\
  (forall tag, getMimeType declared = Some tag -> In tag allow_list).
Proof.
  split; [|split].
  - intros tag. apply getMimeType_Some.
  - apply getMimeType_None.
  - intros tag E. apply getMimeType_Some in E as [I ->]. exact I.
Qed.

(** ** Pre-flight validation *)

(** C6. A generate call with no logo file, or with an empty product
    description, issues no request at all (so the generation capability is
    not invoked), sets the error message to the validation message and
    leaves the status, like every other cell, as it was. *)
Theorem generate_requires_inputs (w : World) (c : AppState) :
  logo c = None \/ productDescription c = "" ->
  let r := run w (handleGenerate c) c in
  trace r = [] /\
  capability_calls (trace r) = [] /\
  error (final r) =
    Some "Please upload a logo and provide a product description." /\
  status (final r) = status c /\
  final r =
    apply_update
      (setError (Some "Please upload a logo and provide a product description.")) c.
Proof.
  intros H r. subst r. rewrite (handleGenerate_invalid c H). cbn. auto.
Qed.

Lemma generate_requires_inputs_witness :
  let r := run Scenario.online (handleGenerate Scenario.no_logo) Scenario.no_logo in
  trace r = [] /\
  capability_calls (trace r) = [] /\
  error (final r) =
    Some "Please upload a logo and provide a product description." /\
  status (final r) = Idle /\
  final r =
    apply_update
      (setError (Some "Please upload a logo and provide a product description."))
      Scenario.no_logo.
Proof.
  apply (generate_requires_inputs Scenario.online Scenario.no_logo).
  left. reflexivity.
Defined.

(** C7. An edit call with no generated image, or with an empty edit
    instruction, issues no request at all (so the edit capability is not
    invoked), sets the error message to the validation message and leaves
    the status, like every other cell, as it was. *)
Theorem edit_requires_inputs (w : World) (c : AppState) :
  generatedImage c = None \/ editPrompt c = "" ->
  let r := run w (handleEdit c) c in
  trace r = [] /\
  capability_calls (trace r) = [] /\
  error (final r) =
    Some "Please generate an image and provide an edit prompt." /\
  status (final r) = status c /\
  final r =
    apply_update
      (setError (Some "Please generate an image and provide an edit prompt.")) c.
Proof.
  intros H r. subst r.
  rewrite (handleEdit_invalid c).
  - cbn. auto.
  - destruct H as [H|H]; [left | now right].
    apply present_None. now left.
Qed.

Lemma edit_requires_inputs_witness :
  let r := run Scenario.online (handleEdit Scenario.ready) Scenario.ready in
  trace r = [] /\
  capability_calls (trace r) = [] /\
  error (final r) =
    Some "Please generate an image and provide an edit prompt." /\
  status (final r) = Idle /\
  final r =
    apply_update
      (setError (Some "Please generate an image and provide an edit prompt."))
      Scenario.ready.
Proof.
  apply (edit_requires_inputs Scenario.online Scenario.ready).
  left. reflexivity.
Defined.

(** ** Generate *)



(** ** Edit *)

(** Every edit request in a trace of [handleEdit] was built from the image
    and the prompt of the render the handler belongs to, and it is the only
    request of that run. *)
Lemma edit_call_inv (w : World) (c : AppState) (payload : option string)
    (mimeType prompt : string) :
  In (EditCall payload mimeType prompt) (trace (run w (handleEdit c) c)) ->
  exists img,
    generatedImage c = Some img /\ img <> "" /\ editPrompt c <> "" /\
    present (generatedImage c) = Some img /\
    payload = Js.split_comma_1 img /\
    mimeType = edit_mimeType img /\
    prompt = editPrompt c.
Proof.
  destruct (present (generatedImage c)) as [img|] eqn:G.
  - destruct (Js.truthy (editPrompt c)) eqn:P.
    + apply truthy_true in P. rewrite (handleEdit_run w c img G P). cbn.
      pose proof G as G'. apply present_Some in G' as [G1 G2].
      intros I. exists img.
      destruct (geminiEdit w _ _ _); cbn in I;
        (destruct I as [[= <- <- <-]|I]; [tauto|]);
        [contradiction | destruct I as [[=]|[]]].
    + apply truthy_false in P. rewrite handleEdit_invalid by auto.
      intros [].
  - rewrite handleEdit_invalid by auto. intros [].
Qed.

(** C8. When an edit request reaches the edit capability: if the capability
    succeeds, the generated image is replaced by its result, the edit
    instruction is cleared and the status is [success]; if it fails, the
    edit instruction keeps its value, the error message is the failure's
    message (the generic one for a failure that is not an [Error]) and the
    status is [error]. *)
Theorem edit_outcome (w : World) (c : AppState) (payload : option string)
    (mimeType prompt : string) :
  let r := run w (handleEdit c) c in
  In (EditCall payload mimeType prompt) (trace r) ->
  match geminiEdit w payload mimeType prompt with
  | Resolved result =>
      generatedImage (final r) = Some result /\
      editPrompt (final r) = "" /\
      status (final r) = Success
  | Rejected e =>
      editPrompt (final r) = editPrompt c /\
      error (final r) = Some (message_of e) /\
      (forall message, e = ErrorObj message -> error (final r) = Some message) /\
      status (final r) = Error
  end.
Proof.
  intros r I. subst r.
  destruct (edit_call_inv w c payload mimeType prompt I)
    as (img & _ & _ & P & G & -> & -> & ->).
  rewrite (handleEdit_run w c img G P). cbn.
  destruct (geminiEdit w _ _ _) as [result|e]; cbn.
  - auto.
  - repeat split. now intros message ->.
Qed.

Lemma edit_outcome_witness :
  (let r := run Scenario.online (handleEdit Scenario.with_mockup)
              Scenario.with_mockup in
   generatedImage (final r) = Some Scenario.retouched /\
   editPrompt (final r) = "" /\
   status (final r) = Success) /\
  (let r := run Scenario.offline (handleEdit Scenario.with_mockup)
              Scenario.with_mockup in
   editPrompt (final r) = "add a retro filter" /\
   error (final r) = Some "Failed to fetch" /\
   (forall message,
       ErrorObj "Failed to fetch" = ErrorObj message ->
       error (final r) = Some message) /\
   status (final r) = Error).
Proof.
  split.
  - apply (edit_outcome Scenario.online Scenario.with_mockup
             (Some "TU9DS1VQ") "image/png" "add a retro filter").
    left. reflexivity.
  - apply (edit_outcome Scenario.offline Scenario.with_mockup
             (Some "TU9DS1VQ") "image/png" "add a retro filter").
    left. reflexivity.
Defined.

(** C9. The media type an edit request passes to the edit capability is
    ["image/jpeg"] exactly when the current generated image starts with
    ["data:image/jpeg"], and ["image/png"] in every other case; no case
    fails. *)
Theorem edit_media_type (w : World) (c : AppState) (payload : option string)
    (mimeType prompt : string) :
  In (EditCall payload mimeType prompt) (trace (run w (handleEdit c) c)) ->
  exists img,
    generatedImage c = Some img /\
    (mimeType = "image/jpeg" <-> exists rest, img = "data:image/jpeg" ++ rest) /\
    (mimeType = "image/png" <-> ~ exists rest, img = "data:image/jpeg" ++ rest).
Proof.
  intros I.
  destruct (edit_call_inv w c payload mimeType prompt I)
    as (img & G & _ & _ & _ & _ & -> & _).
  exists img. split; [exact G|].
  unfold edit_mimeType. rewrite <- startsWith_spec.
  destruct (Js.startsWith img "data:image/jpeg").
  - split; split; try reflexivity; try discriminate. intros N. now elim N.
  - split; split; try reflexivity; try discriminate.
Qed.

Lemma edit_media_type_witness :
  (exists img,
      generatedImage Scenario.with_jpeg_mockup = Some img /\
      ("image/jpeg" = "image/jpeg" <-> exists rest, img = "data:image/jpeg" ++ rest) /\
      ("image/jpeg" = "image/png" <-> ~ exists rest, img = "data:image/jpeg" ++ rest)) /\
  (exists img,
      generatedImage Scenario.with_mockup = Some img /\
      ("image/png" = "image/jpeg" <-> exists rest, img = "data:image/jpeg" ++ rest) /\
      ("image/png" = "image/png" <-> ~ exists rest, img = "data:image/jpeg" ++ rest)).
Proof.
  split.
  - apply (edit_media_type Scenario.online Scenario.with_jpeg_mockup
             (Some "SlBFRw==") "image/jpeg" "add a retro filter").
    left. reflexivity.
  - apply (edit_media_type Scenario.online Scenario.with_mockup
             (Some "TU9DS1VQ") "image/png" "add a retro filter").
    left. reflexivity.
Defined.

(** ** Unsupported media types *)

(** C1, as stated, fails: a GIF file in the logo cell and the default
    description.  The request issues no call of the service and sets the
    error message, but it does not leave the status alone: the [throw] is
    caught by the handler's own [catch], which moves the status from [idle]
    to [error]. *)
Lemma unsupported_type_changes_status :
  let c := Scenario.gif_selected in
  let r := run Scenario.online (handleGenerate c) c in
  logo c = Some Scenario.gif_logo /\
  type Scenario.gif_logo = "image/gif" /\
  ~ In (type Scenario.gif_logo) allow_list /\
  capability_calls (trace r) = [] /\
  error (final r) = Some "Unsupported file type." /\
  status c = Idle /\
  status (final r) = Error /\
  status (final r) <> status c.
Proof.
  cbn. repeat split; try discriminate.
  intros [E|[E|[E|[]]]]; discriminate.
Qed.

(** C1, amended.  A generate request with a logo file whose declared type
    is outside the allow-list: the classification of the type answers
    [null], the generation capability is not invoked, and the error message
    is set.  With a non-empty description the status is [error] after the
    request, whatever it was before, and the message is the one of the
    unsupported type whenever the file could be read; with an empty
    description the request stops at validation and the status is
    unchanged. *)
Theorem unsupported_type_blocks_generate (w : World) (c : AppState) (file : File) :
  logo c = Some file ->
  ~ In (type file) allow_list ->
  let r := run w (handleGenerate c) c in
  getMimeType (type file) = None /\
  capability_calls (trace r) = [] /\
  (exists message, error (final r) = Some message) /\
  (productDescription c <> "" -> status (final r) = Error) /\
  (productDescription c <> "" ->
   forall payload,
     completion (run w (fileToBase64 file) c) = Resolved payload ->
     error (final r) = Some "Unsupported file type.") /\
  (productDescription c = "" -> status (final r) = status c).
Proof.
  intros L N r. subst r.
  apply getMimeType_None in N.
  split; [exact N|].
  destruct (Js.truthy (productDescription c)) eqn:D.
  - apply truthy_true in D.
    rewrite (handleGenerate_run w c file L D), N.
    destruct (completion (run w (fileToBase64 file) c)) as [payload|e]; cbn.
    + repeat split; eauto. intros E. now elim D.
    + repeat split; eauto; try discriminate. intros E. now elim D.
  - apply truthy_false in D.
    rewrite handleGenerate_invalid by auto. cbn.
    repeat split; eauto; intros D'; now elim D'.
Qed.

Lemma unsupported_type_blocks_generate_witness :
  let c := Scenario.gif_selected in
  let r := run Scenario.online (handleGenerate c) c in
  getMimeType "image/gif" = None /\
  capability_calls (trace r) = [] /\
  (exists message, error (final r) = Some message) /\
  status (final r) = Error /\
  error (final r) = Some "Unsupported file type.".
Proof.
  destruct (unsupported_type_blocks_generate Scenario.online
              Scenario.gif_selected Scenario.gif_logo)
    as (cls & calls & msg & st & unsupported & _).
  - reflexivity.
  - intros [E|[E|[E|[]]]]; discriminate.
  - assert (D : productDescription Scenario.gif_selected <> "") by discriminate.
    exact (conj cls (conj calls (conj msg (conj (st D)
             (unsupported D (Some "TE9HTw==") eq_refl))))).
Defined.

(** ** What a failed request leaves behind *)

(** X16. A request succeeds when it issued requests and ended with the
    status [success]; exactly then it leaves no error message.  Every other
    run of a handler, rejected by validation or ended in the [catch] block,
    leaves one. *)
Lemma no_error_iff_succeeded (w : World) (k : RequestKind) (c : AppState) :
  let r := run w (handler k c) c in
  error (final r) = None <-> trace r <> [] /\ status (final r) = Success.
Proof.
  assert (invalid : forall v : string,
             Some v = None <-> @nil event <> [] /\ status c = Success)
    by (intros v; split; [discriminate | intros [N _]; now elim N]).
  destruct k; cbn [handler].
  - destruct (logo c) as [file|] eqn:L.
    + destruct (Js.truthy (productDescription c)) eqn:D.
      * apply truthy_true in D. rewrite (handleGenerate_run w c file L D).
        destruct (completion (run w (fileToBase64 file) c));
          [destruct (getMimeType (type file));
             [destruct (geminiGenerate w _ _ _)|]|];
          cbn; (split; [intros E | intros [N E]]);
          try discriminate; split; (discriminate || reflexivity).
      * apply truthy_false in D. rewrite handleGenerate_invalid by auto.
        apply invalid.
    + rewrite handleGenerate_invalid by auto. apply invalid.
  - destruct (present (generatedImage c)) as [img|] eqn:G.
    + destruct (Js.truthy (editPrompt c)) eqn:P.
      * apply truthy_true in P. rewrite (handleEdit_run w c img G P). cbn.
        destruct (geminiEdit w _ _ _);
          cbn; (split; [intros E | intros [N E]]);
          try discriminate; split; (discriminate || reflexivity).
      * apply truthy_false in P. rewrite handleEdit_invalid by auto.
        apply invalid.
    + rewrite handleEdit_invalid by auto. apply invalid.
Qed.

(** C2, as stated, fails for generate: a mockup is on display, the service
    is down, and the user presses "Generate Mockup" again.  The request
    ends in failure, and the mockup is gone: [handleGenerate] resets the
    generated image before its [try] block. *)
Lemma failed_generate_drops_image :
  let c := Scenario.with_mockup in
  let r := run Scenario.offline (handleGenerate c) c in
  generatedImage c = Some Scenario.mockup /\
  status (final r) = Error /\
  error (final r) = Some "Failed to fetch" /\
  generatedImage (final r) = None /\
  generatedImage (final r) <> generatedImage c.
Proof.
  cbn. repeat split. discriminate.
Qed.

(** C2, amended.  A request ends in failure when it leaves an error
    message.  After such a request the logo, its preview, the product
    description and the edit instruction are what they were.  The generated
    image is what it was after a failed edit and after a generate request
    that validation rejected; a generate request that passed validation and
    then failed leaves no generated image. *)
Theorem failed_request_frame (w : World) (k : RequestKind) (c : AppState) :
  let r := run w (handler k c) c in
  error (final r) <> None ->
  logo (final r) = logo c /\
  logoPreview (final r) = logoPreview c /\
  productDescription (final r) = productDescription c /\
  editPrompt (final r) = editPrompt c /\
  generatedImage (final r) =
    match k with
    | EditRequest => generatedImage c
    | GenerateRequest =>
        if generate_accepted c then None else generatedImage c
    end.
Proof.
  intros r F. subst r. destruct k; cbn [handler] in *.
  - unfold generate_accepted.
    destruct (logo c) as [file|] eqn:L.
    + destruct (Js.truthy (productDescription c)) eqn:D.
      * apply truthy_true in D.
        rewrite (handleGenerate_run w c file L D) in *.
        destruct (completion (run w (fileToBase64 file) c)); cbn in *; auto.
        destruct (getMimeType (type file)); cbn in *; auto.
        destruct (geminiGenerate w _ _ _); cbn in *; auto.
        now elim F.
      * apply truthy_false in D.
        rewrite handleGenerate_invalid by auto. cbn. auto.
    + rewrite handleGenerate_invalid by auto. cbn. auto.
  - destruct (present (generatedImage c)) as [img|] eqn:G.
    + destruct (Js.truthy (editPrompt c)) eqn:P.
      * apply truthy_true in P.
        rewrite (handleEdit_run w c img G P) in *. cbn in *.
        destruct (geminiEdit w _ _ _); cbn in *; auto.
        now elim F.
      * apply truthy_false in P.
        rewrite handleEdit_invalid by auto. cbn. auto.
    + rewrite handleEdit_invalid by auto. cbn. auto.
Qed.

Lemma failed_request_frame_witness :
  (let c := Scenario.with_mockup in
   let r := run Scenario.offline (handleEdit c) c in
   logo (final r) = logo c /\
   logoPreview (final r) = logoPreview c /\
   productDescription (final r) = productDescription c /\
   editPrompt (final r) = editPrompt c /\
   generatedImage (final r) = Some Scenario.mockup) /\
  (let c := Scenario.with_mockup in
   let r := run Scenario.offline (handleGenerate c) c in
   logo (final r) = logo c /\
   logoPreview (final r) = logoPreview c /\
   productDescription (final r) = productDescription c /\
   editPrompt (final r) = editPrompt c /\
   generatedImage (final r) = None).
Proof.
  split.
  - apply (failed_request_frame Scenario.offline EditRequest Scenario.with_mockup).
    discriminate.
  - apply (failed_request_frame Scenario.offline GenerateRequest Scenario.with_mockup).
    discriminate.
Defined.

(** ** Single flight *)

(** A request that passed validation ends with the status [success] or
    [error]: the two buttons are enabled again only then. *)
Lemma accepted_request_settles (w : World) (k : RequestKind) (c : AppState) :
  trace (run w (handler k c) c) <> [] ->
  status (final (run w (handler k c) c)) = Success \/
  status (final (run w (handler k c) c)) = Error.
Proof.
  destruct k; cbn [handler].
  - destruct (logo c) as [file|] eqn:L.
    + destruct (Js.truthy (productDescription c)) eqn:D.
      * apply truthy_true in D. rewrite (handleGenerate_run w c file L D).
        destruct (completion (run w (fileToBase64 file) c)); cbn; auto.
        destruct (getMimeType (type file)); cbn; auto.
        destruct (geminiGenerate w _ _ _); cbn; auto.
      * apply truthy_false in D. rewrite handleGenerate_invalid by auto.
        intros N. now elim N.
    + rewrite handleGenerate_invalid by auto. intros N. now elim N.
  - destruct (present (generatedImage c)) as [img|] eqn:G.
    + destruct (Js.truthy (editPrompt c)) eqn:P.
      * apply truthy_true in P. rewrite (handleEdit_run w c img G P). cbn.
        destruct (geminiEdit w _ _ _); cbn; auto.
      * apply truthy_false in P. rewrite handleEdit_invalid by auto.
        intros N. now elim N.
    + rewrite handleEdit_invalid by auto. intros N. now elim N.
Qed.

(** Where the guard is.  Neither handler reads the status: the first state
    below is the one [handleGenerate] suspends in, and [handleGenerate]
    applied to it would call the service; likewise for [handleEdit].  The
    handlers are only ever called from the two buttons, and it is the
    buttons that stop a second request, as shown further down. *)
Lemma handlers_ignore_status :
  fst (suspend (handleGenerate Scenario.ready) Scenario.ready)
    = Scenario.in_flight /\
  isLoading Scenario.in_flight = true /\
  capability_calls
    (trace (run Scenario.online (handleGenerate Scenario.in_flight)
              Scenario.in_flight))
    = [GenerateCall (Some "TE9HTw==") "image/png" "a white t-shirt"] /\
  fst (suspend (handleEdit Scenario.with_mockup) Scenario.with_mockup)
    = Scenario.edit_in_flight /\
  isLoading Scenario.edit_in_flight = true /\
  capability_calls
    (trace (run Scenario.online (handleEdit Scenario.edit_in_flight)
              Scenario.edit_in_flight))
    = [EditCall (Some "TU9DS1VQ") "image/png" "add a retro filter"].
Proof.
  cbn. repeat split.
Qed.

(** ** Selecting a logo *)

(** A selection that yields a readable file replaces the logo and its
    preview, resets the generated image and the error message, and leaves
    the description, the edit instruction and the status alone. *)
Lemma logo_change_resets (w : World) (st : AppState) (file : File)
    (preview : option string) :
  completion (run w (fileToBase64 file) st) = Resolved preview ->
  let r := run w (handleLogoChange (Some file)) st in
  logo (final r) = Some file /\
  generatedImage (final r) = None /\
  error (final r) = None /\
  productDescription (final r) = productDescription st /\
  editPrompt (final r) = editPrompt st /\
  status (final r) = status st.
Proof.
  intros P r. subst r. rewrite (handleLogoChange_loaded w st file preview P).
  cbn. repeat split.
Qed.

(** A selection event without a file does nothing. *)
Lemma logo_change_no_file (w : World) (st : AppState) :
  run w (handleLogoChange None) st = mkRun st [] (Resolved tt).
Proof. reflexivity. Qed.

(** C10.  The code at a file whose read fails.  An edit has failed, its
    message and the mockup are on display, and the user selects another
    logo which the file reader cannot read.  [setLogo] has run before the
    [await]; the rejection then leaves the handler, which has no [catch],
    so that the new file is the logo while the mockup made from the old one
    and the old error message are still there. *)
Theorem logo_change_unreadable_file :
  let st := Scenario.after_failed_edit in
  let r := run Scenario.unreadable
             (handleLogoChange (Some Scenario.new_logo)) st in
  generatedImage st = Some Scenario.mockup /\
  error st = Some "Failed to fetch" /\
  logo (final r) = Some Scenario.new_logo /\
  logoPreview (final r) = logoPreview st /\
  generatedImage (final r) = Some Scenario.mockup /\
  error (final r) = Some "Failed to fetch" /\
  completion r = Rejected NotAnError.
Proof.
  cbn. repeat split.
Qed.

(** ** Single flight on the page *)

Lemma apply_update_status (u : update) (st : AppState) :
  writes_status u = false -> status (apply_update u st) = status st.
Proof. destruct u; cbn; congruence. Qed.

Lemma quiet_calls_service (p : Prog unit) : quiet p -> calls_service p = false.
Proof. destruct p; cbn; tauto. Qed.

Lemma quiet_suspend (p : Prog unit) :
  quiet p ->
  forall st, status (fst (suspend p st)) = status st /\ quiet (snd (suspend p st)).
Proof.
  induction p as [r|e|u k IH|X q k _]; cbn [quiet suspend]; intros Q st.
  - now split.
  - now split.
  - destruct Q as [U Q]. destruct (IH Q (apply_update u st)) as [S Q'].
    split; [|exact Q']. rewrite S. now apply apply_update_status.
  - now split.
Qed.

Lemma lifecycle_suspend (p : Prog unit) :
  lifecycle p ->
  forall st,
    (awaiting (snd (suspend p st)) = false /\
     isLoading (fst (suspend p st)) = false) \/
    (awaiting (snd (suspend p st)) = true /\
     status (fst (suspend p st)) = status st /\
     lifecycle (snd (suspend p st))).
Proof.
  induction p as [r|e|u k IH|X q k _]; intros L st.
  - destruct L.
  - destruct L.
  - cbn [lifecycle] in L. destruct (writes_status u) eqn:U.
    + left. apply L.
    + cbn [suspend].
      destruct (IH L (apply_update u st)) as [F|(A & S & L')]; [now left|].
      right. repeat split; trivial.
      rewrite S. now apply apply_update_status.
  - right. cbn. auto.
Qed.

Lemma quiet_none_outstanding (l : list (Prog unit)) :
  Forall quiet l -> filter calls_service l = [].
Proof.
  induction 1 as [|p l Q _ IH]; cbn; [reflexivity|].
  now rewrite (quiet_calls_service p Q).
Qed.

Lemma one_lifecycle_outstanding (l : list (Prog unit)) :
  one_lifecycle l -> length (filter calls_service l) <= 1.
Proof.
  induction 1 as [p l L Q|p l Q _ IH]; cbn.
  - rewrite (quiet_none_outstanding l Q). destruct (calls_service p); cbn; lia.
  - now rewrite (quiet_calls_service p Q).
Qed.

Lemma one_lifecycle_snoc (l : list (Prog unit)) (p : Prog unit) :
  one_lifecycle l -> quiet p -> one_lifecycle (l ++ [p]).
Proof.
  induction 1 as [p' l L Q|p' l Q _ IH]; intros Qp; cbn.
  - apply one_here; [exact L|]. apply Forall_app. auto.
  - apply one_later; auto.
Qed.

Lemma quiet_snoc_lifecycle (l : list (Prog unit)) (p : Prog unit) :
  Forall quiet l -> lifecycle p -> one_lifecycle (l ++ [p]).
Proof.
  induction 1 as [|p' l Q _ IH]; intros L; cbn.
  - now apply one_here.
  - apply one_later; auto.
Qed.

(** Taking one suspended handler out: it was the request under way, or the
    request under way is among the others. *)
Lemma one_lifecycle_remove (before after : list (Prog unit)) (p : Prog unit) :
  one_lifecycle (before ++ p :: after) ->
  (lifecycle p /\ Forall quiet (before ++ after)) \/
  (quiet p /\ one_lifecycle (before ++ after)).
Proof.
  induction before as [|b before IH]; cbn; intros H.
  - inversion H as [p' l L Q|p' l Q O]; subst; auto.
  - inversion H as [p' l L Q|p' l Q O]; subst.
    + apply Forall_app in Q as [Qb Qa].
      apply Forall_cons_iff in Qa as [Qp Qa].
      right. split; [exact Qp|].
      apply one_here; [exact L|]. apply Forall_app. auto.
    + destruct (IH O) as [[L Q']|[Qp O']].
      * left. split; [exact L|]. now constructor.
      * right. split; [exact Qp|]. now apply one_later.
Qed.

Lemma handleLogoChange_quiet (files0 : option File) : quiet (handleLogoChange files0).
Proof.
  destruct files0 as [file|]; cbn; [|exact I].
  repeat split. intros [[result|]|]; cbn; auto.
Qed.

(** An accepted generate request suspends at the file read, with the status
    [generating], and is from then on a request under way. *)
Lemma handleGenerate_starts (c st : AppState) :
  generate_accepted c = true ->
  fst (suspend (handleGenerate c) st) = generating st /\
  awaiting (snd (suspend (handleGenerate c) st)) = true /\
  lifecycle (snd (suspend (handleGenerate c) st)).
Proof.
  unfold generate_accepted, handleGenerate.
  destruct (logo c) as [file|]; [|discriminate]. intros ->. cbn.
  repeat split.
  intros [[result|]|]; cbn; try (intros st'; split; reflexivity).
  destruct (getMimeType (type file)) as [mimeType|]; cbn;
    try (intros st'; split; reflexivity).
  intros [img|e]; cbn; intros st'; split; reflexivity.
Qed.

(** An accepted edit request suspends at the call of the service, with the
    status [editing], and is from then on a request under way. *)
Lemma handleEdit_starts (c st : AppState) (img : string) :
  present (generatedImage c) = Some img ->
  Js.truthy (editPrompt c) = true ->
  fst (suspend (handleEdit c) st) = editing st /\
  awaiting (snd (suspend (handleEdit c) st)) = true /\
  lifecycle (snd (suspend (handleEdit c) st)).
Proof.
  unfold handleEdit. intros -> ->. cbn.
  repeat split.
  intros [result|e]; cbn; intros st'; split; reflexivity.
Qed.

Lemma resume_quiet (p : Prog unit) (s : Session) :
  single_flight s -> quiet p -> single_flight (resume p s).
Proof.
  unfold single_flight, resume. intros H Q.
  destruct (quiet_suspend p Q (ui s)) as [S Q'].
  destruct (suspend p (ui s)) as [st p']. cbn in *.
  unfold isLoading in *. rewrite S.
  destruct (status (ui s)); destruct (awaiting p');
    auto using one_lifecycle_snoc; apply Forall_app; auto.
Qed.

Lemma resume_request (p : Prog unit) (s : Session) :
  Forall quiet (pending s) ->
  isLoading (fst (suspend p (ui s))) = true ->
  awaiting (snd (suspend p (ui s))) = true ->
  lifecycle (snd (suspend p (ui s))) ->
  single_flight (resume p s).
Proof.
  unfold single_flight, resume. intros Q S A L.
  destruct (suspend p (ui s)) as [st p']. cbn in *.
  rewrite S, A. now apply quiet_snoc_lifecycle.
Qed.

Lemma resume_lifecycle (p : Prog unit) (s : Session) :
  isLoading (ui s) = true ->
  Forall quiet (pending s) ->
  lifecycle p ->
  single_flight (resume p s).
Proof.
  unfold single_flight, resume. intros S Q L.
  destruct (lifecycle_suspend p L (ui s)) as [[A F]|(A & E & L')];
    destruct (suspend p (ui s)) as [st p']; cbn in *.
  - now rewrite F, A.
  - unfold isLoading in *. rewrite E, A.
    destruct (status (ui s)); try discriminate;
      now apply quiet_snoc_lifecycle.
Qed.

Lemma gesture_single_flight (g : gesture) (s : Session) :
  single_flight s -> single_flight (resume (on_gesture g (ui s)) s).
Proof.
  intros H. destruct g as [| |files0|v|v]; cbn [on_gesture].
  - unfold clickGenerate, generateButton_disabled.
    destruct (logo (ui s)) as [file|] eqn:L; cbn [negb orb];
      [|now apply resume_quiet].
    destruct (Js.truthy (productDescription (ui s))) eqn:D; cbn [negb orb];
      [|now apply resume_quiet].
    destruct (isLoading (ui s)) eqn:S; [now apply resume_quiet|].
    unfold single_flight in H. rewrite S in H.
    assert (A : generate_accepted (ui s) = true)
      by (unfold generate_accepted; now rewrite L).
    destruct (handleGenerate_starts (ui s) (ui s) A) as (E & W & K).
    apply resume_request; trivial. now rewrite E.
  - unfold clickApply, applyButton_rendered, applyButton_disabled.
    destruct (isLoading (ui s)) eqn:S; cbn [negb orb andb];
      [now apply resume_quiet|].
    destruct (present (generatedImage (ui s))) as [img|] eqn:G;
      cbn [negb orb andb]; [|now apply resume_quiet].
    destruct (Js.truthy (editPrompt (ui s))) eqn:P; cbn [negb orb andb];
      [|now apply resume_quiet].
    unfold single_flight in H. rewrite S in H.
    destruct (handleEdit_starts (ui s) (ui s) img G P) as (E & W & K).
    apply resume_request; trivial. now rewrite E.
  - apply resume_quiet; [exact H | apply handleLogoChange_quiet].
  - apply resume_quiet; [exact H|].
    destruct (isLoading (ui s)); cbn; auto.
  - apply resume_quiet; [exact H|].
    destruct (applyButton_rendered (ui s)); cbn; auto.
Qed.

Lemma step_single_flight (s s' : Session) :
  single_flight s -> step s s' -> single_flight s'.
Proof.
  intros H St. revert H.
  destruct St as [g s0|X q k x s0 before after E]; intros H.
  - now apply gesture_single_flight.
  - unfold single_flight in H. rewrite E in H.
    destruct (isLoading (ui s0)) eqn:S.
    + destruct (one_lifecycle_remove before after _ H) as [[L Q]|[Q O]].
      * apply resume_lifecycle; [exact S | exact Q | apply L].
      * apply resume_quiet; [|apply Q].
        unfold single_flight. cbn. now rewrite S.
    + apply Forall_app in H as [Qb Qa].
      apply Forall_cons_iff in Qa as [Q Qa].
      apply resume_quiet; [|apply Q].
      unfold single_flight. cbn. rewrite S. apply Forall_app. auto.
Qed.

Lemma reachable_single_flight (s : Session) : reachable s -> single_flight s.
Proof.
  induction 1 as [|s s' _ IH St].
  - constructor.
  - exact (step_single_flight s s' IH St).
Qed.

(** While a request is under way nothing the user can do on the page writes
    the status or calls the image service. *)
Lemma loading_gesture_quiet (g : gesture) (c : AppState) :
  isLoading c = true -> quiet (on_gesture g c).
Proof.
  intros L. destruct g as [| |files0|v|v]; cbn [on_gesture].
  - unfold clickGenerate, generateButton_disabled.
    rewrite L, !orb_true_r. exact I.
  - unfold clickApply, applyButton_rendered. rewrite L. exact I.
  - apply handleLogoChange_quiet.
  - rewrite L. exact I.
  - unfold applyButton_rendered. rewrite L. exact I.
Qed.

Lemma quiet_run_calls (w : World) (p : Prog unit) :
  quiet p -> forall st, capability_calls (trace (run w p st)) = [].
Proof.
  induction p as [r|e|u k IH|X q k IH]; cbn [quiet run trace];
    intros Q st; try reflexivity.
  - destruct Q as [_ Q]. unfold capability_calls. rewrite filter_app.
    fold (capability_calls (trace (run w k (apply_update u st)))).
    rewrite (IH Q). now destruct u.
  - destruct Q as [S Q]. unfold capability_calls. cbn [filter].
    fold (capability_calls (trace (run w (k (answer w q)) st))).
    rewrite (IH _ (Q _)). now destruct q.
Qed.

(** C3. Single flight.  In every state whose status is [generating] or
    [editing] a second generate or edit call is rejected: the "Generate
    Mockup" button is disabled and the "Apply" button is not on the page, so
    that a press on either starts nothing, issues no request and leaves the
    state as it is; no gesture at all makes the service be called; and no
    gesture adds to the calls of the service that are pending. *)
Theorem buttons_single_flight (w : World) (c : AppState) :
  isLoading c = true ->
  generateButton_disabled c = true /\
  applyButton_rendered c = false /\
  run w (clickGenerate c) c = mkRun c [] (Resolved tt) /\
  run w (clickApply c) c = mkRun c [] (Resolved tt) /\
  (forall g, capability_calls (trace (run w (on_gesture g c) c)) = []) /\
  (forall g waiting,
      outstanding (resume (on_gesture g c) (mkSession c waiting)) =
      outstanding (mkSession c waiting)).
Proof.
  intros H.
  unfold clickGenerate, clickApply, generateButton_disabled, applyButton_rendered.
  rewrite H, !orb_true_r. cbn [negb andb].
  do 4 (split; [reflexivity|]). split.
  - intros g. apply quiet_run_calls. now apply loading_gesture_quiet.
  - intros g waiting. unfold outstanding, resume. cbn [ui pending].
    pose proof (quiet_suspend _ (loading_gesture_quiet g c H) c) as [_ Q].
    destruct (suspend (on_gesture g c) c) as [st p']. cbn [snd pending] in *.
    destruct (awaiting p'); [|reflexivity].
    rewrite filter_app. cbn [filter].
    rewrite (quiet_calls_service p' Q). now rewrite app_nil_r.
Qed.

Lemma buttons_single_flight_witness :
  let c := Scenario.in_flight in
  generateButton_disabled c = true /\
  applyButton_rendered c = false /\
  run Scenario.online (clickGenerate c) c = mkRun c [] (Resolved tt) /\
  run Scenario.online (clickApply c) c = mkRun c [] (Resolved tt) /\
  (forall g,
      capability_calls (trace (run Scenario.online (on_gesture g c) c)) = []) /\
  (forall g waiting,
      outstanding (resume (on_gesture g c) (mkSession c waiting)) =
      outstanding (mkSession c waiting)).
Proof.
  apply (buttons_single_flight Scenario.online Scenario.in_flight).
  reflexivity.
Defined.

(** X15. Whatever the user does on the page and however the environment
    answers, at most one call of the image service is pending at any time,
    and none unless the status is [generating] or [editing]. *)
Theorem page_single_flight (s : Session) :
  reachable s ->
  outstanding s <= 1 /\ (isLoading (ui s) = false -> outstanding s = 0).
Proof.
  intros R. apply reachable_single_flight in R.
  unfold single_flight, outstanding in *.
  destruct (isLoading (ui s)).
  - split; [now apply one_lifecycle_outstanding | discriminate].
  - rewrite (quiet_none_outstanding _ R). cbn. split; [lia | reflexivity].
Qed.

(** The environment answers the oldest pending request. *)
Lemma reachable_answer {X : Type} (st : AppState) (q : request X)
    (k : X -> Prog unit) (rest : list (Prog unit)) (x : X) :
  reachable (mkSession st (Await q k :: rest)) ->
  reachable (resume (k x) (mkSession st rest)).
Proof.
  intros R. apply (reachable_step _ _ R).
  exact (step_answer q k x (mkSession st (Await q k :: rest)) [] rest eq_refl).
Qed.

Lemma reachable_gesture (g : gesture) (s : Session) :
  reachable s -> reachable (resume (on_gesture g (ui s)) s).
Proof.
  intros R. exact (reachable_step _ _ R (step_gesture g s)).
Qed.

(** The bound is reached: a logo is chosen and read, "Generate Mockup" is
    pressed, the logo is read again; the call of the service is pending. *)
Example a_request_in_flight :
  exists s,
    reachable s /\ ui s = Scenario.in_flight /\ outstanding s = 1.
Proof.
  pose proof reachable_initial as R.
  apply (reachable_gesture (ChooseFile (Some Scenario.png_logo))) in R.
  cbv in R.
  apply (reachable_answer _ _ _ _ (Scenario.reads Scenario.png_logo)) in R.
  cbv in R.
  apply (reachable_gesture PressGenerate) in R.
  cbv in R.
  apply (reachable_answer _ _ _ _ (Scenario.reads Scenario.png_logo)) in R.
  cbv in R.
  eexists. split; [exact R|]. split; reflexivity.
Qed.

(** * Further properties *)

(** ** Splitting at commas *)

Lemma split_nonempty (sep : ascii) (s : string) : Js.split sep s <> [].
Proof.
  destruct s as [|c s]; cbn; [discriminate|].
  destruct (Ascii.eqb c sep); [discriminate|].
  destruct (Js.split sep s); discriminate.
Qed.

Lemma split_free (sep : ascii) (s : string) :
  includes sep s = false -> Js.split sep s = [s].
Proof.
  induction s as [|c s IH]; cbn; [reflexivity|].
  destruct (Ascii.eqb c sep); cbn; [discriminate|].
  intros F. now rewrite (IH F).
Qed.

Lemma split_app (sep : ascii) (h b : string) :
  includes sep h = false ->
  Js.split sep (h ++ String sep b) = h :: Js.split sep b.
Proof.
  induction h as [|c h IH]; cbn.
  - intros _. now rewrite Ascii.eqb_refl.
  - destruct (Ascii.eqb c sep); cbn; [discriminate|].
    intros F. now rewrite (IH F).
Qed.

(** [s.split(sep).join(sep)] is [s]. *)
Lemma split_join (sep : ascii) (s : string) :
  String.concat (String sep "") (Js.split sep s) = s.
Proof.
  induction s as [|c s IH]; cbn; [reflexivity|].
  destruct (Ascii.eqb_spec c sep) as [->|N].
  - cbn. pose proof (split_nonempty sep s) as NE.
    destruct (Js.split sep s) as [|p ps]; [now elim NE|].
    cbn in *. now rewrite IH.
  - pose proof (split_nonempty sep s) as NE.
    destruct (Js.split sep s) as [|p ps]; [now elim NE|].
    cbn in *. destruct ps; cbn in *; now rewrite <- IH.
Qed.

Lemma split_comma_1_None (s : string) :
  Js.split_comma_1 s = None <-> includes "," s = false.
Proof.
  unfold Js.split_comma_1.
  induction s as [|c s IH]; cbn; [tauto|].
  pose proof (split_nonempty "," s) as NE.
  destruct (Ascii.eqb c ","); cbn.
  - destruct (Js.split "," s); [now elim NE|]. cbn. split; discriminate.
  - destruct (Js.split "," s); [now elim NE|]. cbn in *. exact IH.
Qed.

Lemma split_comma_1_data (header body : string) :
  includes "," header = false ->
  includes "," body = false ->
  Js.split_comma_1 (header ++ "," ++ body) = Some body.
Proof.
  intros H B. unfold Js.split_comma_1. cbn [append].
  now rewrite (split_app "," header body H), (split_free "," body B).
Qed.

(** ** Every run of a request handler *)

Lemma generate_accepted_false (c : AppState) :
  generate_accepted c = false <-> logo c = None \/ productDescription c = "".
Proof.
  unfold generate_accepted. destruct (logo c) as [file|].
  - rewrite truthy_false. split; [auto | intros [[=]|E]; exact E].
  - tauto.
Qed.

(** The case analysis every property of the two handlers rests on. *)
Lemma handler_view (w : World) (k : RequestKind) (c st : AppState) :
  handled w c st k (run w (handler k c) st).
Proof.
  destruct k; cbn [handler].
  - destruct (generate_accepted c) eqn:A.
    + unfold generate_accepted in A.
      destruct (logo c) as [file|] eqn:L; [|discriminate].
      pose proof A as D. apply truthy_true in D.
      assert (B : completion (run w (fileToBase64 file) st) =
                  match fileReader w file with
                  | OnLoad (Some result) => Resolved (Js.split_comma_1 result)
                  | OnLoad None =>
                      Rejected (ErrorObj "Failed to read file as base64 string.")
                  | OnError => Rejected NotAnError
                  end) by now rewrite fileToBase64_run.
      unfold handleGenerate. rewrite L, A. cbn.
      destruct (fileReader w file) as [[result|]|]; cbn.
      * destruct (getMimeType (type file)) as [mimeType|] eqn:M; cbn.
        -- destruct (geminiGenerate w _ mimeType (productDescription c))
             as [img|e] eqn:G; cbn.
           ++ now apply (generate_succeeded w c st file _ mimeType img).
           ++ now apply (generate_failed w c st file _ mimeType e).
        -- now apply (generate_unsupported w c st file (Js.split_comma_1 result)).
      * now apply (generate_unread w c st file
                     (ErrorObj "Failed to read file as base64 string.")).
      * now apply (generate_unread w c st file NotAnError).
    + pose proof A as A'. apply generate_accepted_false in A'.
      rewrite (handleGenerate_invalid c A'). cbn. now apply generate_invalid.
  - destruct (present (generatedImage c)) as [img|] eqn:G.
    + destruct (Js.truthy (editPrompt c)) eqn:P.
      * pose proof P as P'. apply truthy_true in P'.
        unfold handleEdit. rewrite G, P. cbn. fold (edit_mimeType img).
        destruct (geminiEdit w _ (edit_mimeType img) (editPrompt c))
          as [result|e] eqn:E; cbn.
        -- now apply (edit_succeeded w c st img result).
        -- now apply (edit_failed w c st img e).
      * apply truthy_false in P. rewrite handleEdit_invalid by auto.
        cbn. apply edit_invalid. auto.
    + rewrite handleEdit_invalid by auto. cbn. apply edit_invalid. auto.
Qed.

(** X1. In a run in which the environment answers every request the
    handler awaits (the handlers set no time limit of their own), the
    promise [handleGenerate] or [handleEdit] returns is fulfilled: whatever
    the file reader, the classification or the service throws is caught.
    Such a run goes one of two ways: stopped by validation, it issues no
    request and leaves the status as it was, whatever it was; otherwise it
    issues a request and ends with the status [success] or [error].  This
    holds on any current state, also one the handler's render is stale
    for. *)
Theorem handlers_always_settle (w : World) (k : RequestKind) (c st : AppState) :
  let r := run w (handler k c) st in
  completion r = Resolved tt /\
  ((trace r = [] /\ status (final r) = status st) \/
   (trace r <> [] /\ (status (final r) = Success \/ status (final r) = Error))).
Proof.
  destruct (handler_view w k c st); cbn; split; trivial;
    try (left; split; reflexivity);
    right; (split; [discriminate | auto]).
Qed.

(** X2. No run of [handleGenerate] or [handleEdit], successful or not,
    changes the logo, its preview or the product description, and
    [handleGenerate] never changes the edit instruction. *)
Theorem handlers_frame (w : World) (k : RequestKind) (c st : AppState) :
  let r := run w (handler k c) st in
  logo (final r) = logo st /\
  logoPreview (final r) = logoPreview st /\
  productDescription (final r) = productDescription st /\
  (k = GenerateRequest -> editPrompt (final r) = editPrompt st).
Proof.
  destruct (handler_view w k c st); cbn; repeat split; discriminate.
Qed.

(** X3. A generate request whose logo cannot be read never reaches the
    service and ends in [error] with the generated image reset.  The message
    shown is "Failed to read file as base64 string." when the reader loaded
    something that is not a string, and the generic "An unknown error
    occurred." when the reader reported an error, since what [fileToBase64]
    rejects with then is the reader's event and not an [Error]. *)
Theorem unreadable_logo_message (w : World) (c st : AppState) (file : File) :
  logo c = Some file ->
  productDescription c <> "" ->
  (forall result, fileReader w file <> OnLoad (Some result)) ->
  let r := run w (handleGenerate c) st in
  capability_calls (trace r) = [] /\
  status (final r) = Error /\
  generatedImage (final r) = None /\
  error (final r) =
    Some match fileReader w file with
         | OnError => "An unknown error occurred."
         | OnLoad _ => "Failed to read file as base64 string."
         end.
Proof.
  intros L D U r. subst r.
  assert (A : generate_accepted c = true)
    by (unfold generate_accepted; rewrite L; now apply truthy_true).
  pose proof (handler_view w GenerateRequest c st) as V. cbn [handler] in V.
  inversion V as [A'|file' e L' D' B|file' payload L' D' B M
                  |file' payload m e L' D' B M G
                  |file' payload m img L' D' B M G| | |];
    try congruence;
    assert (file' = file) by congruence; subst file';
    rewrite fileToBase64_run in B; cbn in B;
    destruct (fileReader w file) as [[result|]|] eqn:F;
    try discriminate B; try (now elim (U result));
    injection B as <-; cbn; auto.
Qed.

Lemma unreadable_logo_message_witness :
  let r := run Scenario.unreadable (handleGenerate Scenario.with_mockup)
             Scenario.with_mockup in
  capability_calls (trace r) = [] /\
  status (final r) = Error /\
  generatedImage (final r) = None /\
  error (final r) = Some "An unknown error occurred.".
Proof.
  apply (unreadable_logo_message Scenario.unreadable Scenario.with_mockup
           Scenario.with_mockup Scenario.png_logo).
  - reflexivity.
  - discriminate.
  - discriminate.
Defined.

Lemma first_comma (s : string) :
  includes "," s = true ->
  exists header body, s = header ++ "," ++ body /\ includes "," header = false.
Proof.
  induction s as [|ch s IH]; cbn; [discriminate|].
  destruct (Ascii.eqb_spec ch ",") as [->|N]; cbn.
  - intros _. now exists "", s.
  - intros H. destruct (IH H) as (header & body & -> & F).
    exists (String ch header), body. split; [reflexivity|].
    cbn. apply Ascii.eqb_neq in N. now rewrite N.
Qed.

(** Every string with a comma is cut in one way. *)
Lemma cut_exists (s : string) :
  includes "," s = true -> exists header piece, cut_at_commas s header piece.
Proof.
  intros H. destruct (first_comma s H) as (header & body & -> & F).
  destruct (includes "," body) eqn:B.
  - destruct (first_comma body B) as (piece & rest & -> & F').
    exists header, piece. repeat split; trivial. right. now exists rest.
  - exists header, body. repeat split; trivial. now left.
Qed.

Lemma split_comma_1_cut (s header piece : string) :
  cut_at_commas s header piece -> Js.split_comma_1 s = Some piece.
Proof.
  intros (H & P & [->|[rest ->]]).
  - now apply split_comma_1_data.
  - unfold Js.split_comma_1. cbn [append].
    rewrite (split_app "," header _ H).
    now rewrite (split_app "," piece rest P).
Qed.

(** X4. When the reader loads a string, [fileToBase64] reads the file once
    and resolves, touching no state, with [result.split(',')[1]]: with
    [undefined] exactly when the string has no comma, which is no
    rejection, and otherwise with what stands between the first comma of
    the string and the next one, or the end; for a data URL, whose header
    and base64 body contain no comma, that is the body. *)
Theorem fileToBase64_payload (w : World) (file : File) (st : AppState)
    (result : string) :
  fileReader w file = OnLoad (Some result) ->
  run w (fileToBase64 file) st =
    mkRun st [FileRead file] (Resolved (Js.split_comma_1 result)) /\
  (Js.split_comma_1 result = None <-> includes "," result = false) /\
  (forall header piece,
      cut_at_commas result header piece ->
      Js.split_comma_1 result = Some piece) /\
  (includes "," result = true ->
   exists header piece, cut_at_commas result header piece).
Proof.
  intros F. split; [|split; [|split]].
  - rewrite fileToBase64_run, F. reflexivity.
  - apply split_comma_1_None.
  - apply split_comma_1_cut.
  - apply cut_exists.
Qed.

Lemma fileToBase64_payload_witness :
  let result := "data:image/png;base64,TE9HTw==" in
  run Scenario.online (fileToBase64 Scenario.png_logo) Scenario.ready =
    mkRun Scenario.ready [FileRead Scenario.png_logo]
      (Resolved (Js.split_comma_1 result)) /\
  (Js.split_comma_1 result = None <-> includes "," result = false) /\
  (forall header piece,
      cut_at_commas result header piece ->
      Js.split_comma_1 result = Some piece) /\
  (includes "," result = true ->
   exists header piece, cut_at_commas result header piece).
Proof.
  apply (fileToBase64_payload Scenario.online Scenario.png_logo Scenario.ready
           "data:image/png;base64,TE9HTw==").
  reflexivity.
Defined.

(** X5. An edit request that passes validation calls the service exactly
    once, with [generatedImage.split(',')[1]], the media type read off the
    image's prefix, and the edit prompt.  The first argument is
    [undefined] exactly when the image has no comma, which does not stop
    the request, and otherwise what stands between the first comma of the
    image and the next one, or the end: the base64 body when the image is a
    data URL. *)
Theorem edit_payload (w : World) (c st : AppState) (img : string) :
  generatedImage c = Some img ->
  img <> "" ->
  editPrompt c <> "" ->
  capability_calls (trace (run w (handleEdit c) st)) =
    [EditCall (Js.split_comma_1 img) (edit_mimeType img) (editPrompt c)] /\
  (Js.split_comma_1 img = None <-> includes "," img = false) /\
  (forall header piece,
      cut_at_commas img header piece -> Js.split_comma_1 img = Some piece) /\
  (includes "," img = true ->
   exists header piece, cut_at_commas img header piece).
Proof.
  intros G N P.
  assert (G' : present (generatedImage c) = Some img)
    by (apply present_Some; auto).
  split; [|split; [|split]].
  - pose proof (handler_view w EditRequest c st) as V. cbn [handler] in V.
    inversion V as [| | | | |[G''|P']|img' e G'' P' E|img' result G'' P' E];
      try congruence;
      assert (img' = img) by congruence; subst img'; reflexivity.
  - apply split_comma_1_None.
  - apply split_comma_1_cut.
  - apply cut_exists.
Qed.

Lemma edit_payload_witness :
  let img := Scenario.mockup in
  capability_calls
    (trace (run Scenario.online (handleEdit Scenario.with_mockup)
              Scenario.with_mockup)) =
    [EditCall (Js.split_comma_1 img) "image/png" "add a retro filter"] /\
  (Js.split_comma_1 img = None <-> includes "," img = false) /\
  (forall header piece,
      cut_at_commas img header piece -> Js.split_comma_1 img = Some piece) /\
  (includes "," img = true ->
   exists header piece, cut_at_commas img header piece).
Proof.
  apply (edit_payload Scenario.online Scenario.with_mockup Scenario.with_mockup
           Scenario.mockup).
  - reflexivity.
  - discriminate.
  - discriminate.
Defined.

(** ** The buttons and the handlers together *)

Lemma accepted_generate_reads (w : World) (c st : AppState) :
  generate_accepted c = true -> trace (run w (handleGenerate c) st) <> [].
Proof.
  intros A. pose proof (handler_view w GenerateRequest c st) as V.
  cbn [handler] in V. inversion V; try discriminate. congruence.
Qed.

Lemma accepted_edit_calls (w : World) (c st : AppState) (img : string) :
  present (generatedImage c) = Some img ->
  Js.truthy (editPrompt c) = true ->
  trace (run w (handleEdit c) st) <> [].
Proof.
  intros G P. apply truthy_true in P.
  pose proof (handler_view w EditRequest c st) as V.
  cbn [handler] in V.
  inversion V as [| | | | |[G'|P']| |]; try discriminate; congruence.
Qed.

(** X6. A press on "Generate Mockup" or on "Apply" either does nothing or
    runs a handler whose validation passes: the two validation messages of
    the handlers cannot be produced from the buttons, whose enabling
    conditions imply the handlers' guards. *)
Theorem press_starts_or_ignores (w : World) (k : RequestKind) (c : AppState) :
  press k c = Ret tt \/
  (press k c = handler k c /\ trace (run w (handler k c) c) <> []).
Proof.
  destruct k; cbn [press handler].
  - unfold clickGenerate.
    destruct (generateButton_disabled c) eqn:B; [now left|]. right.
    split; [reflexivity|]. apply accepted_generate_reads.
    unfold generateButton_disabled in B. unfold generate_accepted.
    destruct (logo c); [|discriminate B].
    destruct (Js.truthy (productDescription c)); [reflexivity | discriminate B].
  - unfold clickApply.
    destruct (applyButton_rendered c && negb (applyButton_disabled c)) eqn:B;
      [|now left]. right.
    split; [reflexivity|].
    apply andb_true_iff in B as [R D].
    unfold applyButton_rendered in R. unfold applyButton_disabled in D.
    apply andb_true_iff in R as [_ R].
    destruct (present (generatedImage c)) as [img|] eqn:G; [|discriminate R].
    apply (accepted_edit_calls w c c img G).
    destruct (Js.truthy (editPrompt c)); [reflexivity | discriminate D].
Qed.

(** X7. After a request that failed past validation the same request can be
    sent again at once: its button is live, and pressing it runs the same
    handler on the same inputs, the failure having left the logo, the
    description, the edit instruction and, for an edit, the image
    untouched. *)
Theorem retry_after_failure (w : World) (k : RequestKind) (c : AppState) :
  let r := run w (handler k c) c in
  trace r <> [] ->
  status (final r) = Error ->
  press k (final r) = handler k c.
Proof.
  intros r T S. subst r.
  destruct k; cbn [press handler] in *.
  - pose proof (handler_view w GenerateRequest c c) as V. cbn [handler] in V.
    inversion V as [A|file e L D B|file payload L D B M
                    |file payload m e L D B M G
                    |file payload m img L D B M G| | |];
      match goal with H : _ = run _ _ _ |- _ => rewrite <- H in * end;
      cbn in T, S; try discriminate S; try (now elim T);
      cbn [final]; apply truthy_true in D;
      unfold clickGenerate, generateButton_disabled, handleGenerate; cbn;
      now rewrite L, D.
  - pose proof (handler_view w EditRequest c c) as V. cbn [handler] in V.
    inversion V as [| | | | |I|img e G P E|img result G P E];
      match goal with H : _ = run _ _ _ |- _ => rewrite <- H in * end;
      cbn in T, S; try discriminate S; try (now elim T).
    cbn [final]. apply truthy_true in P.
    unfold clickApply, applyButton_rendered, applyButton_disabled, handleEdit.
    cbn. now rewrite G, P.
Qed.

Lemma retry_after_failure_witness :
  press EditRequest
    (final (run Scenario.offline (handleEdit Scenario.with_mockup)
              Scenario.with_mockup))
  = handleEdit Scenario.with_mockup.
Proof.
  apply (retry_after_failure Scenario.offline EditRequest Scenario.with_mockup).
  - discriminate.
  - reflexivity.
Defined.

(** X8. After a successful edit the edit instruction is empty, so "Apply"
    is disabled until a new instruction is typed, and a call of
    [handleEdit] made all the same is stopped by validation without
    reaching the service. *)
Theorem apply_needs_new_instruction (w : World) (c : AppState) :
  let r := run w (handleEdit c) c in
  trace r <> [] ->
  status (final r) = Success ->
  press EditRequest (final r) = Ret tt /\
  forall w',
    run w' (handleEdit (final r)) (final r) =
    mkRun
      (apply_update
         (setError (Some "Please generate an image and provide an edit prompt."))
         (final r))
      [] (Resolved tt).
Proof.
  intros r T S. subst r.
  pose proof (handler_view w EditRequest c c) as V. cbn [handler] in V.
  inversion V as [| | | | |I|img e G P E|img result G P E];
    match goal with H : _ = run _ _ _ |- _ => rewrite <- H in * end;
    cbn in T, S; try discriminate S; try (now elim T).
  cbn [final]. split.
  - unfold press, clickApply, applyButton_disabled. cbn.
    now rewrite andb_false_r.
  - intros w'. now rewrite handleEdit_invalid by (right; reflexivity).
Qed.

Lemma apply_needs_new_instruction_witness :
  let r := run Scenario.online (handleEdit Scenario.with_mockup)
             Scenario.with_mockup in
  press EditRequest (final r) = Ret tt /\
  forall w',
    run w' (handleEdit (final r)) (final r) =
    mkRun
      (apply_update
         (setError (Some "Please generate an image and provide an edit prompt."))
         (final r))
      [] (Resolved tt).
Proof.
  apply (apply_needs_new_instruction Scenario.online Scenario.with_mockup).
  - discriminate.
  - reflexivity.
Defined.

(** X9. Generate, then edit.  When a generate request with a readable logo
    of a supported type gets the result [img] from the service, the
    generated image is [img] and the status is [success].  Once an
    instruction is typed, a press on "Apply" calls the service once, with
    that very [img] cut at its first comma, with the media type read off
    its prefix, and with the instruction.  When [img] is the empty string
    the status is [success] all the same, but the page has no "Apply"
    button: the press does nothing. *)
Theorem generate_then_edit (w : World) (c : AppState) (file : File)
    (result img prompt : string) :
  logo c = Some file ->
  productDescription c <> "" ->
  In (type file) allow_list ->
  fileReader w file = OnLoad (Some result) ->
  geminiGenerate w (Js.split_comma_1 result) (type file) (productDescription c)
    = Resolved img ->
  prompt <> "" ->
  let r := run w (handleGenerate c) c in
  let st := apply_update (setEditPrompt prompt) (final r) in
  generatedImage (final r) = Some img /\
  status (final r) = Success /\
  (img <> "" ->
   forall w',
     capability_calls (trace (run w' (press EditRequest st) st)) =
       [EditCall (Js.split_comma_1 img) (edit_mimeType img) prompt]) /\
  (img = "" -> forall w', run w' (press EditRequest st) st = mkRun st [] (Resolved tt)).
Proof.
  intros L D T F G N r st. subst r st.
  assert (M : getMimeType (type file) = Some (type file))
    by (apply getMimeType_Some; auto).
  assert (P : completion (run w (fileToBase64 file) c) =
              Resolved (Js.split_comma_1 result))
    by (rewrite fileToBase64_run, F; reflexivity).
  remember (Js.split_comma_1 result) as payload eqn:EP. clear EP.
  rewrite (handleGenerate_run w c file L D), P, M, G.
  cbn [final]. split; [reflexivity|]. split; [reflexivity|]. split.
  - intros NE w'.
    assert (TI : Js.truthy img = true) by now apply truthy_true.
    apply truthy_true in N.
    unfold press, clickApply, applyButton_rendered, applyButton_disabled,
      handleEdit, isLoading, generated, generating, apply_update.
    cbn [generatedImage status editPrompt present negb andb orb].
    rewrite TI, N. cbn. fold (edit_mimeType img).
    now destruct (geminiEdit w' _ (edit_mimeType img) prompt).
  - intros -> w'. reflexivity.
Qed.

Lemma generate_then_edit_witness :
  let r := run Scenario.online (handleGenerate Scenario.ready) Scenario.ready in
  let st := apply_update (setEditPrompt "add a retro filter") (final r) in
  generatedImage (final r) = Some Scenario.mockup /\
  status (final r) = Success /\
  (Scenario.mockup <> "" ->
   forall w',
     capability_calls (trace (run w' (press EditRequest st) st)) =
       [EditCall (Js.split_comma_1 Scenario.mockup)
          (edit_mimeType Scenario.mockup) "add a retro filter"]) /\
  (Scenario.mockup = "" ->
   forall w', run w' (press EditRequest st) st = mkRun st [] (Resolved tt)).
Proof.
  apply (generate_then_edit Scenario.online Scenario.ready Scenario.png_logo
           "data:image/png;base64,TE9HTw==" Scenario.mockup
           "add a retro filter").
  - reflexivity.
  - discriminate.
  - left. reflexivity.
  - reflexivity.
  - reflexivity.
  - discriminate.
Defined.

(** ** Selecting a logo, whatever the reader does *)

(** X10. [handleLogoChange] never calls the image service and never changes
    the status, the product description or the edit instruction, whether
    the read succeeds or fails; given a file, it always makes it the logo.
    Its promise is rejected exactly when [fileToBase64] is, with the same
    reason, and when it is fulfilled the generated image and the error
    message have been reset. *)
Theorem logo_change_frame (w : World) (st : AppState) (files0 : option File) :
  let r := run w (handleLogoChange files0) st in
  capability_calls (trace r) = [] /\
  status (final r) = status st /\
  productDescription (final r) = productDescription st /\
  editPrompt (final r) = editPrompt st /\
  (files0 = None -> final r = st) /\
  (forall file, files0 = Some file ->
     logo (final r) = Some file /\
     (forall e, completion r = Rejected e <->
                completion (run w (fileToBase64 file) st) = Rejected e) /\
     (completion r = Resolved tt ->
      generatedImage (final r) = None /\ error (final r) = None)).
Proof.
  destruct files0 as [file|].
  - cbv zeta.
    destruct (completion (run w (fileToBase64 file) st)) as [preview|e] eqn:B.
    + rewrite (handleLogoChange_loaded w st file preview B).
      cbn [final trace completion].
      split; [reflexivity|]. do 3 (split; [reflexivity|]).
      split; [discriminate|].
      intros file' [= <-]. split; [reflexivity|]. split.
      * intros e. rewrite B. split; discriminate.
      * intros _. split; reflexivity.
    + rewrite (handleLogoChange_unreadable w st file e B).
      cbn [final trace completion].
      split; [reflexivity|]. do 3 (split; [reflexivity|]).
      split; [discriminate|].
      intros file' [= <-]. split; [reflexivity|]. split.
      * intros e'. rewrite B. split; intros [= ->]; reflexivity.
      * discriminate.
  - cbn. repeat split; discriminate.
Qed.

(** ** The file picker and the classifier *)

(** X11. The declared types the file input lists in its [accept] attribute
    are exactly the ones [getMimeType] classifies as supported: a file the
    picker offers by type is never refused by [handleGenerate] for its type,
    and a type the picker does not list is always refused. *)
Theorem picker_matches_classifier (declared : string) :
  In declared accepted_types <-> getMimeType declared = Some declared.
Proof.
  change accepted_types with allow_list.
  rewrite getMimeType_Some. tauto.
Qed.

(** ** Download *)

Lemma filter_fresh (fresh : nat) (l : list Dom.Element) (e : Dom.Element) :
  (forall child, In child l -> Dom.identity child <> fresh) ->
  Dom.identity e = fresh ->
  filter (fun child => negb (Nat.eqb (Dom.identity child) (Dom.identity e)))
    (l ++ [e]) = l.
Proof.
  intros F E. rewrite filter_app. cbn. rewrite Nat.eqb_refl. cbn.
  rewrite app_nil_r. induction l as [|x l IH]; cbn; [reflexivity|].
  assert (N : Dom.identity x <> fresh) by (apply F; now left).
  rewrite E. apply Nat.eqb_neq in N. rewrite N. cbn. f_equal.
  rewrite <- E. apply IH. intros child I. apply F. now right.
Qed.

(** X12. [handleDownload] does nothing when there is no generated image
    (none, or the empty string).  Otherwise it clicks exactly one new
    anchor, whose [href] is the generated image and whose [download] name is
    "merch-mockup.png" whatever the image's media type, and it leaves
    [document.body] with the children it had. *)
Theorem download_clicks_once (c : AppState) (fresh : nat) (d : Dom.Document) :
  (forall child, In child (Dom.body d) -> Dom.identity child <> fresh) ->
  handleDownload c fresh d =
  match generatedImage c with
  | None | Some "" => d
  | Some img =>
      Dom.mkDocument (Dom.body d)
        (Dom.clicked d ++ [Dom.mkElement fresh "a" img "merch-mockup.png"])
  end.
Proof.
  intros F. unfold handleDownload.
  destruct (generatedImage c) as [[|ch img]|]; cbn [present]; try reflexivity.
  change (Js.truthy (String ch img)) with true. cbv iota.
  unfold Dom.removeChild, Dom.click, Dom.appendChild. cbn [Dom.body Dom.clicked].
  now rewrite (filter_fresh fresh).
Qed.

Lemma download_clicks_once_witness :
  handleDownload Scenario.with_jpeg_mockup 7
    (Dom.mkDocument [Dom.mkElement 0 "div" "" ""] [])
  = Dom.mkDocument [Dom.mkElement 0 "div" "" ""]
      [Dom.mkElement 7 "a" Scenario.jpeg_mockup "merch-mockup.png"].
Proof.
  apply (download_clicks_once Scenario.with_jpeg_mockup 7
           (Dom.mkDocument [Dom.mkElement 0 "div" "" ""] [])).
  intros child [<-|[]]. discriminate.
Defined.

(** ** Witnesses of the page-level properties *)

Lemma reachable_answer_first (w : World) (s : Session) :
  reachable s -> reachable (answer_first w s).
Proof.
  intros R. unfold answer_first.
  destruct (pending s) as [|[r|e|u p|X q k] rest] eqn:E; trivial.
  apply (reachable_step s _ R).
  exact (step_answer q k (answer w q) s [] rest E).
Qed.


Lemma page_single_flight_witness :
  outstanding Visit.calling <= 1 /\
  (isLoading (ui Visit.calling) = false -> outstanding Visit.calling = 0).
Proof.
  apply (page_single_flight Visit.calling).
  apply reachable_answer_first.
  apply (reachable_gesture PressGenerate Visit.chosen).
  apply reachable_answer_first.
  apply (reachable_gesture (ChooseFile (Some Scenario.png_logo)) Visit.opened).
  exact reachable_initial.
Defined.

(** ** The error message on the page *)

Lemma discreet_suspend (p : Prog unit) (st : AppState) :
  discreet p -> discreet (snd (suspend p st)).
Proof.
  revert st. induction p as [r|e|u k IH|X q k _]; intros st D; cbn; auto.
Qed.

Lemma handleLogoChange_discreet (files0 : option File) :
  discreet (handleLogoChange files0).
Proof.
  destruct files0 as [file|]; cbn; [|exact I].
  intros [[result|]|]; cbn; auto.
Qed.

Lemma handleGenerate_discreet (c : AppState) : discreet (handleGenerate c).
Proof.
  unfold handleGenerate.
  destruct (logo c) as [file|]; [|exact I].
  destruct (Js.truthy (productDescription c)); [|exact I]. cbn.
  intros [[result|]|]; cbn; auto.
  destruct (getMimeType (type file)) as [mimeType|]; cbn; auto.
  split; [auto|]. intros [img|e]; cbn; auto.
Qed.

Lemma handleEdit_discreet (c : AppState) : discreet (handleEdit c).
Proof.
  unfold handleEdit.
  destruct (present (generatedImage c)) as [img|]; [|exact I].
  destruct (Js.truthy (editPrompt c)); [|exact I]. cbn.
  intros [result|e]; cbn; auto.
Qed.

Lemma on_gesture_discreet (g : gesture) (c : AppState) : discreet (on_gesture g c).
Proof.
  destruct g as [| |files0|v|v]; cbn [on_gesture].
  - unfold clickGenerate. destruct (generateButton_disabled c);
      [exact I | apply handleGenerate_discreet].
  - unfold clickApply.
    destruct (applyButton_rendered c && negb (applyButton_disabled c));
      [apply handleEdit_discreet | exact I].
  - apply handleLogoChange_discreet.
  - destruct (isLoading c); exact I.
  - destruct (applyButton_rendered c); exact I.
Qed.

(** What the synchronous start of a gesture does to the status and the
    error message: nothing, or it starts a request and clears the message. *)
Lemma on_gesture_start (g : gesture) (c : AppState) :
  let st := fst (suspend (on_gesture g c) c) in
  (status st = status c /\ error st = error c) \/
  (isLoading st = true /\ error st = None).
Proof.
  destruct g as [| |files0|v|v]; cbn [on_gesture].
  - unfold clickGenerate. destruct (generateButton_disabled c) eqn:B;
      [now left|]. right.
    unfold generateButton_disabled in B. unfold handleGenerate.
    destruct (logo c); [|discriminate B].
    destruct (Js.truthy (productDescription c)); [|discriminate B].
    cbn. auto.
  - unfold clickApply.
    destruct (applyButton_rendered c && negb (applyButton_disabled c)) eqn:B;
      [|now left]. right.
    apply andb_true_iff in B as [R D].
    unfold applyButton_rendered in R. unfold applyButton_disabled in D.
    apply andb_true_iff in R as [_ R]. unfold handleEdit.
    destruct (present (generatedImage c)); [|discriminate R].
    destruct (Js.truthy (editPrompt c)); [|discriminate D].
    cbn. auto.
  - left. destruct files0; cbn; auto.
  - left. destruct (isLoading c); cbn; auto.
  - left. destruct (applyButton_rendered c); cbn; auto.
Qed.

Lemma resume_pending_discreet (p : Prog unit) (s : Session) :
  Forall discreet (pending s) -> discreet p ->
  Forall discreet (pending (resume p s)).
Proof.
  unfold resume. intros F D.
  pose proof (discreet_suspend p (ui s) D) as D'.
  destruct (suspend p (ui s)) as [st p']. cbn in *.
  destruct (awaiting p'); [|exact F]. apply Forall_app. auto.
Qed.

Lemma resume_ui (p : Prog unit) (s : Session) :
  ui (resume p s) = fst (suspend p (ui s)).
Proof.
  unfold resume. now destruct (suspend p (ui s)).
Qed.

Lemma error_shown_properly_same (st st' : AppState) :
  status st' = status st -> error st' = error st ->
  error_shown_properly st -> error_shown_properly st'.
Proof.
  unfold error_shown_properly, isLoading. now intros -> ->.
Qed.

(** The invariant: single flight, every suspended handler discreet, and the
    error message shown properly. *)
Lemma reachable_error_shown (s : Session) :
  reachable s ->
  single_flight s /\ Forall discreet (pending s) /\ error_shown_properly (ui s).
Proof.
  induction 1 as [|s s' R (SF & DS & ES) St].
  - split; [exact (Forall_nil quiet)|].
    split; [exact (Forall_nil discreet)|].
    intros N. now elim N.
  - split; [exact (step_single_flight s s' SF St)|].
    revert SF DS ES.
    destruct St as [g s0|X q k x s0 before after E]; intros SF DS ES.
    + split; [apply resume_pending_discreet; auto using on_gesture_discreet|].
      rewrite resume_ui.
      destruct (on_gesture_start g (ui s0)) as [[S E]|[L E]].
      * exact (error_shown_properly_same _ _ S E ES).
      * unfold error_shown_properly. now rewrite L.
    + rewrite E in DS. apply Forall_app in DS as [Db Da].
      apply Forall_cons_iff in Da as [Dk Da].
      destruct (Dk x) as [Err Dx].
      split.
      { apply resume_pending_discreet; [|exact Dx]. cbn. apply Forall_app. auto. }
      rewrite resume_ui. cbn [ui].
      assert (Q : isLoading (ui s0) = false ->
                  status (fst (suspend (k x) (ui s0))) = status (ui s0)).
      { intros NL. unfold single_flight in SF. rewrite NL, E in SF.
        apply Forall_app in SF as [_ SF].
        apply Forall_cons_iff in SF as [Qk _].
        apply (quiet_suspend (k x)). apply Qk. }
      unfold error_shown_properly in *.
      destruct (isLoading (fst (suspend (k x) (ui s0)))) eqn:L'.
      * destruct (Err (ui s0)) as [N|[Same|SE]]; [exact N| |].
        -- destruct (isLoading (ui s0)) eqn:L0; [congruence|].
           exfalso. unfold isLoading in L', L0. rewrite (Q eq_refl) in L'.
           congruence.
        -- unfold isLoading in L'. rewrite SE in L'. discriminate.
      * intros NE. destruct (Err (ui s0)) as [N|[Same|SE]];
          [congruence | | exact SE].
        destruct (isLoading (ui s0)) eqn:L0; [congruence|].
        rewrite (Q eq_refl). apply ES. congruence.
Qed.

(** X13. Whatever the user does on the page and however the environment
    answers, an error message is on display only while the status is
    [error], and never while the status is [generating] or [editing]. *)
Theorem page_error_shown_properly (s : Session) :
  reachable s ->
  (isLoading (ui s) = true -> error (ui s) = None) /\
  (error (ui s) <> None -> status (ui s) = Error).
Proof.
  intros R. destruct (reachable_error_shown s R) as (_ & _ & ES).
  unfold error_shown_properly in ES.
  destruct (isLoading (ui s)) eqn:L.
  - split; [auto|]. intros N. now elim N.
  - split; [discriminate | exact ES].
Qed.

Lemma page_error_shown_properly_witness :
  (isLoading (ui Visit.calling) = true -> error (ui Visit.calling) = None) /\
  (error (ui Visit.calling) <> None -> status (ui Visit.calling) = Error).
Proof.
  apply (page_error_shown_properly Visit.calling).
  apply reachable_answer_first.
  apply (reachable_gesture PressGenerate Visit.chosen).
  apply reachable_answer_first.
  apply (reachable_gesture (ChooseFile (Some Scenario.png_logo)) Visit.opened).
  exact reachable_initial.
Defined.

(** ** The answer of the service on the page *)

(** A property of code that the handlers have, and that the rest of a
    handler keeps when it is resumed, holds of every suspended handler. *)
Section Pending.

Variable P : Prog unit -> Prop.
Hypothesis P_gesture : forall g c, P (on_gesture g c).
Hypothesis P_Do : forall u k, P (Do u k) -> P k.
Hypothesis P_Await : forall X (q : request X) k x, P (Await q k) -> P (k x).




End Pending.





(** ** The generate request, for every supported type *)

(** X17. A generate request with a readable logo of any supported declared
    type reads the file once and then calls the service once, passing the
    payload [fileToBase64] resolved with, the file's declared type as it
    is, and the description.  If the service succeeds the generated image
    is its result, the status is [success] and no error message is left; if
    it fails there is no generated image, the error message is the
    failure's, and the status is [error]. *)
Theorem generate_request_shape (w : World) (c st : AppState) (file : File)
    (payload : option string) :
  logo c = Some file ->
  productDescription c <> "" ->
  In (type file) allow_list ->
  completion (run w (fileToBase64 file) st) = Resolved payload ->
  let r := run w (handleGenerate c) st in
  firstn 2 (trace r) =
    [FileRead file; GenerateCall payload (type file) (productDescription c)] /\
  capability_calls (trace r) =
    [GenerateCall payload (type file) (productDescription c)] /\
  match geminiGenerate w payload (type file) (productDescription c) with
  | Resolved img =>
      generatedImage (final r) = Some img /\
      status (final r) = Success /\
      error (final r) = None
  | Rejected e =>
      generatedImage (final r) = None /\
      status (final r) = Error /\
      error (final r) = Some (message_of e)
  end.
Proof.
  intros L D T B r. subst r.
  assert (M : getMimeType (type file) = Some (type file))
    by (apply getMimeType_Some; auto).
  pose proof (handler_view w GenerateRequest c st) as V. cbn [handler] in V.
  inversion V as [A|file' e L' D' B'|file' payload' L' D' B' M'
                  |file' payload' m e L' D' B' M' G
                  |file' payload' m img L' D' B' M' G| | |].
  - apply generate_accepted_false in A as [A|A]; congruence.
  - congruence.
  - congruence.
  - assert (file' = file) by congruence. subst file'.
    assert (payload' = payload) by congruence. subst payload'.
    assert (m = type file) by congruence. subst m.
    rewrite G. cbn. auto.
  - assert (file' = file) by congruence. subst file'.
    assert (payload' = payload) by congruence. subst payload'.
    assert (m = type file) by congruence. subst m.
    rewrite G. cbn. auto.
Qed.

Lemma generate_request_shape_witness :
  let r := run Scenario.offline (handleGenerate Scenario.with_mockup)
             Scenario.with_mockup in
  firstn 2 (trace r) =
    [FileRead Scenario.png_logo;
     GenerateCall (Some "TE9HTw==") "image/png" "a white t-shirt"] /\
  capability_calls (trace r) =
    [GenerateCall (Some "TE9HTw==") "image/png" "a white t-shirt"] /\
  generatedImage (final r) = None /\
  status (final r) = Error /\
  error (final r) = Some "Failed to fetch".
Proof.
  apply (generate_request_shape Scenario.offline Scenario.with_mockup
           Scenario.with_mockup Scenario.png_logo (Some "TE9HTw==")).
  - reflexivity.
  - discriminate.
  - left. reflexivity.
  - reflexivity.
Defined.
